(** * TFServingCache: the proxy layer ([pkg/tfservingproxy])

    A shallow embedding of [tfservingproxy.go]: the REST proxy (the URL
    pattern, the [Serve] wrapper and the reverse proxy's director) and the
    gRPC proxy (the five forwarding methods, [MultiInference] and
    [clientForSpec]), together with the two Prometheus counter vectors the
    package owns.

    Go strings are byte sequences; they are modelled by [string], whose
    characters are the 256 byte values.  Pointers that may be nil are
    [option]s.  Calls that leave the package (the routing handler, the HTTP
    transport, the client provider, the upstream gRPC service) are
    parameters acting on an abstract external state, and every such call is
    recorded in a trace. *)

From Stdlib Require Import ZArith Ascii String Lia.
From stdpp Require Import gmap strings list.

(** ** Bytes and strings *)

Definition byte_of (n : nat) : ascii := ascii_of_nat n.

Definition byte_in (lo hi : nat) (c : ascii) : bool :=
  (lo <=? nat_of_ascii c)%nat && (nat_of_ascii c <=? hi)%nat.

(** [0-9], [a-z] and [A-Z] on a single byte. *)
Definition is_digit (c : ascii) : bool := byte_in 48 57 c.
Definition is_lower (c : ascii) : bool := byte_in 97 122 c.
Definition is_upper (c : ascii) : bool := byte_in 65 90 c.

(** The character class [[a-z0-9]] as written in the pattern. *)
Definition is_lower_alnum (c : ascii) : bool := is_lower c || is_digit c.

Definition to_lower (c : ascii) : ascii :=
  if is_upper c then ascii_of_nat (nat_of_ascii c + 32) else c.

Fixpoint string_forallb (p : ascii -> bool) (s : string) : bool :=
  match s with
  | EmptyString => true
  | String c r => p c && string_forallb p r
  end.

Definition is_empty (s : string) : bool :=
  match s with EmptyString => true | String _ _ => false end.

(** ** The URL pattern

    [tfServingRestURLMatch] is
    [(?i)^/v1/models/(?P<modelName>[a-z0-9]+)(/versions/(?P<version>[0-9]+))?].

    Go's regexp works on the runes of the UTF-8 input.  Under [(?i)] a
    literal or class member matches every rune of its simple-fold orbit:
    for an ASCII letter that is the other case, and for [s] and [k] also
    U+017F (bytes C5 BF) and U+212A (bytes E2 84 AA).  [read_folded] reads
    the first rune of the input: it returns the ASCII character the rune
    folds to (the byte itself when it is no such rune), the bytes of the
    rune and the remaining input. *)

Definition read_folded (s : string) : option (ascii * string * string) :=
  match s with
  | EmptyString => None
  | String c r =>
      match r with
      | String c2 r2 =>
          if (nat_of_ascii c =? 197)%nat && (nat_of_ascii c2 =? 191)%nat
          then Some ("s"%char, String c (String c2 EmptyString), r2)
          else
            match r2 with
            | String c3 r3 =>
                if (nat_of_ascii c =? 226)%nat && (nat_of_ascii c2 =? 132)%nat
                   && (nat_of_ascii c3 =? 170)%nat
                then Some ("k"%char, String c (String c2 (String c3 EmptyString)), r3)
                else Some (to_lower c, String c EmptyString, r)
            | EmptyString => Some (to_lower c, String c EmptyString, r)
            end
      | EmptyString => Some (to_lower c, String c EmptyString, r)
      end
  end.

(** The case-folded form of a string: every rune replaced by what
    [read_folded] gives for it. *)
Fixpoint fold_case (s : string) : string :=
  match s with
  | EmptyString => EmptyString
  | String c r =>
      match r with
      | String c2 r2 =>
          if (nat_of_ascii c =? 197)%nat && (nat_of_ascii c2 =? 191)%nat
          then String "s" (fold_case r2)
          else
            match r2 with
            | String c3 r3 =>
                if (nat_of_ascii c =? 226)%nat && (nat_of_ascii c2 =? 132)%nat
                   && (nat_of_ascii c3 =? 170)%nat
                then String "k" (fold_case r3)
                else String (to_lower c) (fold_case r)
            | EmptyString => String (to_lower c) (fold_case r)
            end
      | EmptyString => String (to_lower c) (fold_case r)
      end
  end.

(** A literal of the pattern (given in lower case) at the head of the
    input, compared rune by rune under case folding; the result is the
    matched bytes and the remaining input. *)
Fixpoint match_literal (lit : string) (s : string) : option (string * string) :=
  match lit with
  | EmptyString => Some (EmptyString, s)
  | String p lit' =>
      match read_folded s with
      | Some (c, raw, r) =>
          if Ascii.eqb c p then
            match match_literal lit' r with
            | Some (m, t) => Some (raw +:+ m, t)
            | None => None
            end
          else None
      | None => None
      end
  end.

(** The longest run of runes in [(?i)[a-z0-9]] at the head of the input
    (the greedy [[a-z0-9]+] without its lower bound): the run and the
    remaining input. *)
Fixpoint scan_alnum (s : string) : string * string :=
  match s with
  | EmptyString => (EmptyString, EmptyString)
  | String c r =>
      match r with
      | String c2 r2 =>
          if (nat_of_ascii c =? 197)%nat && (nat_of_ascii c2 =? 191)%nat
          then let '(m, t) := scan_alnum r2 in (String c (String c2 m), t)
          else
            match r2 with
            | String c3 r3 =>
                if (nat_of_ascii c =? 226)%nat && (nat_of_ascii c2 =? 132)%nat
                   && (nat_of_ascii c3 =? 170)%nat
                then let '(m, t) := scan_alnum r3 in
                     (String c (String c2 (String c3 m)), t)
                else if is_lower_alnum (to_lower c)
                     then let '(m, t) := scan_alnum r in (String c m, t)
                     else (EmptyString, s)
            | EmptyString =>
                if is_lower_alnum (to_lower c)
                then let '(m, t) := scan_alnum r in (String c m, t)
                else (EmptyString, s)
            end
      | EmptyString =>
          if is_lower_alnum (to_lower c)
          then let '(m, t) := scan_alnum r in (String c m, t)
          else (EmptyString, s)
      end
  end.

(** The longest run of [[0-9]] at the head of the input; no other rune
    folds to a digit. *)
Fixpoint scan_digits (s : string) : string * string :=
  match s with
  | EmptyString => (EmptyString, EmptyString)
  | String c r =>
      if is_digit c
      then let '(m, t) := scan_digits r in (String c m, t)
      else (EmptyString, s)
  end.

(** The optional group [(/versions/(?P<version>[0-9]+))?]: the text of
    the group, the text of [version] and the remaining input; both texts
    are empty when the group does not take part in the match. *)
Definition match_version_group (s : string) : string * string * string :=
  match match_literal "/versions/" s with
  | Some (lit, r) =>
      let '(v, t) := scan_digits r in
      if is_empty v then (EmptyString, EmptyString, s)
      else (lit +:+ v, v, t)
  | None => (EmptyString, EmptyString, s)
  end.

(** [tfServingRestURLMatch.FindStringSubmatch]: [None] is the nil slice
    of a failed match; a match is the slice of the whole match and the
    three groups, an unmatched group giving the empty string. *)
Definition FindStringSubmatch (s : string) : option (list string) :=
  match match_literal "/v1/models/" s with
  | Some (lit, r) =>
      let '(name, r') := scan_alnum r in
      if is_empty name then None
      else
        let '(grp, version, _) := match_version_group r' in
        Some [lit +:+ name +:+ grp; name; grp; version]
  | None => None
  end.

(** ** Go values used by the package *)

(** Values of the [error] interface: [errors.New] values and gRPC status
    errors.  A nil [error] is [None]. *)
Inductive error : Type :=
  | errors_New (text : string)
  | status_Error (code : nat) (text : string).

(** The gRPC status code of an error, as [status.Code] of the gRPC
    library reads it and as a client sees it: [OK] for nil, the code of a
    status error, and [Unknown] for any other error. *)
Definition codes_OK : nat := 0.
Definition codes_Unknown : nat := 2.
Definition codes_Unimplemented : nat := 12.

Definition status_Code (err : option error) : nat :=
  match err with
  | None => codes_OK
  | Some (status_Error code _) => code
  | Some (errors_New _) => codes_Unknown
  end.

Inductive Level : Type := DebugLevel | ErrorLevel.

(** One logrus call: its level, its formatted message and the error
    attached by [WithError]. *)
Record LogEntry : Type := mkLogEntry {
  log_level : Level;
  log_message : string;
  log_error : option error
}.

(** [*http.Request]; [req_URL] is what [req.URL.String()] returns. *)
Record Request : Type := mkRequest {
  req_Method : string;
  req_URL : string;
  req_Body : string
}.

(** [http.ResponseWriter] of one exchange: the header map, the status
    code once it is written, and the bytes of the body. *)
Record ResponseWriter : Type := mkResponseWriter {
  rw_Header : gmap string (list string);
  rw_Status : option nat;
  rw_Body : string
}.

Definition fresh_response : ResponseWriter :=
  {| rw_Header := ∅; rw_Status := None; rw_Body := EmptyString |}.

Definition Header_Set (key value : string) (rw : ResponseWriter) : ResponseWriter :=
  {| rw_Header := <[key := [value]]> (rw_Header rw);
     rw_Status := rw_Status rw;
     rw_Body := rw_Body rw |}.

(** [WriteHeader]: only the first status code counts. *)
Definition WriteHeader (code : nat) (rw : ResponseWriter) : ResponseWriter :=
  match rw_Status rw with
  | Some _ => rw
  | None =>
      {| rw_Header := rw_Header rw; rw_Status := Some code; rw_Body := rw_Body rw |}
  end.

(** [Write]: an implicit [WriteHeader(200)] when no status was written. *)
Definition Write (data : string) (rw : ResponseWriter) : ResponseWriter :=
  let rw' := WriteHeader 200 rw in
  {| rw_Header := rw_Header rw';
     rw_Status := rw_Status rw';
     rw_Body := rw_Body rw' +:+ data |}.

Definition StatusBadRequest : nat := 400.

(** The anonymous struct encoded by [Serve]. *)
Record StatusMessage : Type := mkStatusMessage {
  Status : string;
  Message : string
}.

Definition quote_char : string := String (byte_of 34) EmptyString.
Definition newline : string := String (byte_of 10) EmptyString.

(** A JSON string literal.  The two texts [Serve] encodes hold no
    character that the encoder escapes. *)
Definition json_string (s : string) : string := quote_char +:+ s +:+ quote_char.

Definition json_Marshal (v : StatusMessage) : string :=
  "{" +:+ json_string "Status" +:+ ":" +:+ json_string (Status v) +:+ ","
      +:+ json_string "Message" +:+ ":" +:+ json_string (Message v) +:+ "}".

(** [json.NewEncoder(rw).Encode(v)]: the encoding followed by a line
    feed, in one [Write]. *)
Definition json_Encode (v : StatusMessage) (rw : ResponseWriter) : ResponseWriter :=
  Write (json_Marshal v +:+ newline) rw.

(** [*grpc.ClientConn]. *)
Record ClientConn : Type := mkClientConn { conn_target : string }.

(** [context.Context], as far as the proxy is concerned an opaque token
    handed on to the upstream call. *)
Record Context : Type := mkContext { ctx_id : nat }.

(** ** Protocol buffer messages *)

Record Int64Value : Type := mkInt64Value { Value : Z }.

Record ModelSpec : Type := mkModelSpec {
  Name : string;
  Version : option Int64Value;
  SignatureName : string
}.

(** The generated getters accept nil receivers. *)
Definition GetName (m : option ModelSpec) : string :=
  match m with Some s => Name s | None => EmptyString end.

Definition GetVersion (m : option ModelSpec) : option Int64Value :=
  match m with Some s => Version s | None => None end.

Definition GetValue (v : option Int64Value) : Z :=
  match v with Some x => Value x | None => 0%Z end.

Record PredictRequest : Type := mkPredictRequest {
  PredictRequest_ModelSpec : option ModelSpec;
  PredictRequest_Inputs : string
}.
Record ClassificationRequest : Type := mkClassificationRequest {
  ClassificationRequest_ModelSpec : option ModelSpec;
  ClassificationRequest_Input : string
}.
Record RegressionRequest : Type := mkRegressionRequest {
  RegressionRequest_ModelSpec : option ModelSpec;
  RegressionRequest_Input : string
}.
Record GetModelMetadataRequest : Type := mkGetModelMetadataRequest {
  GetModelMetadataRequest_ModelSpec : option ModelSpec;
  GetModelMetadataRequest_MetadataField : list string
}.
Record SessionRunRequest : Type := mkSessionRunRequest {
  SessionRunRequest_ModelSpec : option ModelSpec;
  SessionRunRequest_Feed : string
}.
Record MultiInferenceRequest : Type := mkMultiInferenceRequest {
  MultiInferenceRequest_Tasks : list (option ModelSpec);
  MultiInferenceRequest_Input : string
}.

Record PredictResponse : Type := mkPredictResponse { PredictResponse_Outputs : string }.
Record ClassificationResponse : Type :=
  mkClassificationResponse { ClassificationResponse_Result : string }.
Record RegressionResponse : Type :=
  mkRegressionResponse { RegressionResponse_Result : string }.
Record GetModelMetadataResponse : Type :=
  mkGetModelMetadataResponse { GetModelMetadataResponse_Metadata : string }.
Record SessionRunResponse : Type :=
  mkSessionRunResponse { SessionRunResponse_Tensor : string }.
Record MultiInferenceResponse : Type :=
  mkMultiInferenceResponse { MultiInferenceResponse_Results : string }.

(** [req.GetModelSpec()] of each request message; nil requests give nil. *)
Class HasModelSpec (R : Type) : Type := GetModelSpec : option R -> option ModelSpec.

#[export] Instance PredictRequest_HasModelSpec : HasModelSpec PredictRequest :=
  fun r => match r with Some x => PredictRequest_ModelSpec x | None => None end.
#[export] Instance ClassificationRequest_HasModelSpec : HasModelSpec ClassificationRequest :=
  fun r => match r with Some x => ClassificationRequest_ModelSpec x | None => None end.
#[export] Instance RegressionRequest_HasModelSpec : HasModelSpec RegressionRequest :=
  fun r => match r with Some x => RegressionRequest_ModelSpec x | None => None end.
#[export] Instance GetModelMetadataRequest_HasModelSpec :
  HasModelSpec GetModelMetadataRequest :=
  fun r => match r with Some x => GetModelMetadataRequest_ModelSpec x | None => None end.
#[export] Instance SessionRunRequest_HasModelSpec : HasModelSpec SessionRunRequest :=
  fun r => match r with Some x => SessionRunRequest_ModelSpec x | None => None end.

(** ** [strconv.FormatInt(i, 10)]

    The digits are produced from the least significant one by repeated
    division, as in [formatBits]; twenty steps cover every 64-bit
    magnitude.  A negative [i] prints the minus sign and the magnitude
    [-i], which for the least [int64] is [2^63]. *)

Definition digit_char (d : Z) : ascii := ascii_of_nat (48 + Z.to_nat d).

Fixpoint formatBits (steps : nat) (u : Z) (acc : string) : string :=
  match steps with
  | O => acc
  | S n =>
      if (u <? 10)%Z then String (digit_char u) acc
      else formatBits n (u / 10)%Z (String (digit_char (u mod 10)%Z) acc)
  end.

Definition FormatInt (i : Z) : string :=
  if (i <? 0)%Z then String "-" (formatBits 20 (- i)%Z EmptyString)
  else formatBits 20 i EmptyString.

(** Reading a decimal numeral back, for stating what [FormatInt] prints. *)
Fixpoint digits_value (s : string) (acc : Z) : option Z :=
  match s with
  | EmptyString => Some acc
  | String c r =>
      if is_digit c
      then digits_value r (10 * acc + (Z.of_nat (nat_of_ascii c) - 48))%Z
      else None
  end.

Definition decimal_value (s : string) : option Z :=
  match s with
  | EmptyString => None
  | String c r =>
      if Ascii.eqb c "-"
      then if is_empty r then None else Z.opp <$> digits_value r 0%Z
      else digits_value s 0%Z
  end.

Definition int64_min : Z := (- 2 ^ 63)%Z.
Definition int64_max : Z := (2 ^ 63 - 1)%Z.

(** ** The state the package acts on *)

(** [*grpc.Server], as far as the package sees it: the services
    registered on it; and [net.Listener]. *)
Record grpc_Server : Type := mkGrpcServer { server_services : list string }.
Record Listener : Type := mkListener { listener_address : string }.

Inductive Method : Type :=
  | MPredict | MClassify | MRegress | MGetModelMetadata | MSessionRun.

(** Calls that leave the package, in the order they are made. *)
Inductive Event : Type :=
  | ReverseProxyServed (req : Request)
  | HandlerCalled (req : Request) (modelName version : string)
  | RoundTrip (outreq : Request)
  | ClientProviderCalled (modelName version : string)
  | UpstreamCalled (m : Method) (client : option ClientConn)
  | NetListenCalled (network address : string)
  | ServeCalled (server : grpc_Server) (lis : Listener)
  | ListenerClosed (lis : Listener)
  | GracefulStopCalled (server : grpc_Server).

(** A Prometheus counter vector with the single label [protocol]: the
    counter of each label value that was touched. *)
Definition counter_value (vec : gmap string nat) (label : string) : nat :=
  default 0 (vec !! label).

(** [vec.WithLabelValues(label).Add(n)]; [Inc] is [Add(1)]. *)
Definition counter_Add (label : string) (n : nat) (vec : gmap string nat) :
    gmap string nat :=
  <[label := counter_value vec label + n]> vec.

Section Proxy.

(** The state of everything outside the package. *)
Context {E : Type}.

Record World : Type := mkWorld {
  requestsForwarded : gmap string nat;
  requestsInvalid : gmap string nat;
  logged : list LogEntry;
  trace : list Event;
  external : E
}.

(** A Go call either returns or panics; both leave a state behind. *)
Inductive Outcome (A : Type) : Type :=
  | Returned (a : A) (w : World)
  | Panicked (reason : string) (w : World).
Arguments Returned {A} a w.
Arguments Panicked {A} reason w.

Definition M (A : Type) : Type := World -> Outcome A.

Definition ret {A : Type} (a : A) : M A := fun w => Returned a w.

Definition bind {A B : Type} (c : M A) (k : A -> M B) : M B :=
  fun w =>
    match c w with
    | Returned a w' => k a w'
    | Panicked reason w' => Panicked reason w'
    end.

Definition panic {A : Type} (reason : string) : M A := fun w => Panicked reason w.

Definition final_world {A : Type} (o : Outcome A) : World :=
  match o with Returned _ w => w | Panicked _ w => w end.

Definition result {A : Type} (o : Outcome A) : option A :=
  match o with Returned a _ => Some a | Panicked _ _ => None end.

Notation "x <- c ;; k" := (bind c (fun x => k))
  (at level 20, c at level 99, k at level 200, right associativity).
Notation "c >> k" := (bind c (fun _ => k))
  (at level 100, k at level 200, right associativity).

Definition log (lvl : Level) (msg : string) (err : option error) : M unit :=
  fun w =>
    Returned tt
      {| requestsForwarded := requestsForwarded w;
         requestsInvalid := requestsInvalid w;
         logged := logged w ++ [mkLogEntry lvl msg err];
         trace := trace w;
         external := external w |}.

Definition emit (e : Event) : M unit :=
  fun w =>
    Returned tt
      {| requestsForwarded := requestsForwarded w;
         requestsInvalid := requestsInvalid w;
         logged := logged w;
         trace := trace w ++ [e];
         external := external w |}.

Definition requestsForwarded_Add (label : string) (n : nat) : M unit :=
  fun w =>
    Returned tt
      {| requestsForwarded := counter_Add label n (requestsForwarded w);
         requestsInvalid := requestsInvalid w;
         logged := logged w;
         trace := trace w;
         external := external w |}.

Definition requestsInvalid_Add (label : string) (n : nat) : M unit :=
  fun w =>
    Returned tt
      {| requestsForwarded := requestsForwarded w;
         requestsInvalid := counter_Add label n (requestsInvalid w);
         logged := logged w;
         trace := trace w;
         external := external w |}.

Definition requestsForwarded_Inc (label : string) : M unit :=
  requestsForwarded_Add label 1.
Definition requestsInvalid_Inc (label : string) : M unit :=
  requestsInvalid_Add label 1.

(** A call of a function that lives outside the package: it sees and
    changes the external state only. *)
Definition call {A : Type} (f : E -> A * E) : M A :=
  fun w =>
    let '(a, x) := f (external w) in
    Returned a
      {| requestsForwarded := requestsForwarded w;
         requestsInvalid := requestsInvalid w;
         logged := logged w;
         trace := trace w;
         external := x |}.

(** [matches[i]]: indexing the nil slice of a failed match, or past the
    end, panics. *)
Definition index (matches : option (list string)) (i : nat) : M string :=
  match default [] matches !! i with
  | Some s => ret s
  | None => panic "runtime error: index out of range"
  end.

(** ** The REST proxy *)

(** The routing callback given to [NewRestProxy]: it may rewrite the
    request it is handed. *)
Definition Handler : Type :=
  Request -> string -> string -> E -> (option error * Request) * E.

Definition call_handler (handler : Handler) (req : Request)
    (modelName version : string) : M (option error * Request) :=
  emit (HandlerCalled req modelName version) >>
  call (handler req modelName version).

(** [httputil.ReverseProxy], with the [Director] that rewrites the
    outgoing request. *)
Record ReverseProxy : Type := mkReverseProxy {
  Director : Request -> M Request
}.

(** [RestProxy]; its fields [successCounter] and [errorCounter] are
    never assigned or read. *)
Record RestProxy : Type := mkRestProxy {
  RestProxy_RestProxy : ReverseProxy
}.

(** What the outgoing request meets: the transport's round trip and the
    copy of the upstream response to the client. *)
Variable transport : Request -> ResponseWriter -> E -> ResponseWriter * E.

Definition round_trip (outreq : Request) (rw : ResponseWriter) : M ResponseWriter :=
  emit (RoundTrip outreq) >>
  call (transport outreq rw).

(** [ReverseProxy.ServeHTTP]: the director runs on the outgoing copy of
    the request, which the transport then sends. *)
Definition ReverseProxy_ServeHTTP (p : ReverseProxy) (rw : ResponseWriter)
    (req : Request) : M ResponseWriter :=
  emit (ReverseProxyServed req) >>
  outreq <- Director p req ;;
  round_trip outreq rw.

(** The [director] closure of [NewRestProxy]. *)
Definition director (handler : Handler) (req : Request) : M Request :=
  log DebugLevel ("Handling URL: " +:+ req_URL req) None >>
  let matches := FindStringSubmatch (req_URL req) in
  m1 <- index matches 1 ;;
  m3 <- index matches 3 ;;
  log DebugLevel ("Model name: '" +:+ m1 +:+ "' Version: '" +:+ m3 +:+ "'") None >>
  m1 <- index matches 1 ;;
  m3 <- index matches 3 ;;
  r <- call_handler handler req m1 m3 ;;
  match fst r with
  | Some _ => requestsInvalid_Inc "rest"
  | None => requestsInvalid_Inc "rest"
  end >>
  ret (snd r).

Definition NewRestProxy (handler : Handler) : M RestProxy :=
  requestsForwarded_Add "rest" 0 >>
  requestsInvalid_Add "rest" 0 >>
  ret {| RestProxy_RestProxy := {| Director := director handler |} |}.

(** The function returned by [RestProxy.Serve]. *)
Definition Serve (handler : RestProxy) (rw : ResponseWriter) (req : Request) :
    M ResponseWriter :=
  log DebugLevel ("Handling URL: " +:+ req_URL req) None >>
  let matches := FindStringSubmatch (req_URL req) in
  m1 <- index matches 1 ;;
  m3 <- index matches 3 ;;
  log DebugLevel ("Model name: '" +:+ m1 +:+ "' Version: '" +:+ m3 +:+ "'") None >>
  m3 <- index matches 3 ;;
  if String.eqb m3 EmptyString then
    let rw := Header_Set "Content-Type" "application/json" rw in
    let rw := WriteHeader StatusBadRequest rw in
    let rw :=
      json_Encode
        {| Status := "Error"; Message := "Model version must be provided" |} rw in
    requestsInvalid_Inc "rest" >>
    ret rw
  else
    requestsForwarded_Inc "rest" >>
    ReverseProxy_ServeHTTP (RestProxy_RestProxy handler) rw req.

(** ** The gRPC proxy *)

Definition ClientProvider : Type :=
  string -> string -> E -> (option ClientConn * option error) * E.

(** [proxyServiceServer]. *)
Record proxyServiceServer : Type := mkProxyServiceServer {
  clientProvider : ClientProvider
}.

Definition call_clientProvider (server : proxyServiceServer)
    (modelName version : string) : M (option ClientConn * option error) :=
  emit (ClientProviderCalled modelName version) >>
  call (clientProvider server modelName version).

(** The generated clients [pb.NewPredictionServiceClient(conn)] and
    [pb.NewSessionServiceClient(conn)]: one remote call per method. *)
Definition Rpc (Req Resp : Type) : Type :=
  option ClientConn -> Context -> option Req -> E ->
  (option Resp * option error) * E.

Variable service_Predict : Rpc PredictRequest PredictResponse.
Variable service_Classify : Rpc ClassificationRequest ClassificationResponse.
Variable service_Regress : Rpc RegressionRequest RegressionResponse.
Variable service_GetModelMetadata : Rpc GetModelMetadataRequest GetModelMetadataResponse.
Variable service_SessionRun : Rpc SessionRunRequest SessionRunResponse.

(** One remote call through a generated client.  The connection is
    handed on as the provider returned it; what the generated client
    does with a nil connection is not modelled, and the statements about
    upstream calls are for connections that are not nil. *)
Definition call_service {Req Resp : Type} (m : Method) (rpc : Rpc Req Resp)
    (client : option ClientConn) (ctx : Context) (req : option Req) :
    M (option Resp * option error) :=
  emit (UpstreamCalled m client) >>
  call (rpc client ctx req).

Definition clientForSpec (server : proxyServiceServer) (modelSpec : option ModelSpec) :
    M (option ClientConn * option error) :=
  let modelName := GetName modelSpec in
  let modelVersion := FormatInt (GetValue (GetVersion modelSpec)) in
  call_clientProvider server modelName modelVersion.

Definition Classify (server : proxyServiceServer) (ctx : Context)
    (req : option ClassificationRequest) :
    M (option ClassificationResponse * option error) :=
  r <- clientForSpec server (GetModelSpec req) ;;
  match snd r with
  | Some err =>
      requestsInvalid_Inc "grpc" >>
      log ErrorLevel "Could not get grpc client" (Some err) >>
      ret (None, Some err)
  | None =>
      res <- call_service MClassify service_Classify (fst r) ctx req ;;
      requestsForwarded_Inc "grpc" >>
      ret res
  end.

Definition Regress (server : proxyServiceServer) (ctx : Context)
    (req : option RegressionRequest) :
    M (option RegressionResponse * option error) :=
  r <- clientForSpec server (GetModelSpec req) ;;
  match snd r with
  | Some err =>
      log ErrorLevel "Could not get grpc client" (Some err) >>
      requestsInvalid_Inc "grpc" >>
      ret (None, Some err)
  | None =>
      res <- call_service MRegress service_Regress (fst r) ctx req ;;
      requestsForwarded_Inc "grpc" >>
      ret res
  end.

Definition Predict (server : proxyServiceServer) (ctx : Context)
    (req : option PredictRequest) :
    M (option PredictResponse * option error) :=
  r <- clientForSpec server (GetModelSpec req) ;;
  match snd r with
  | Some err =>
      log ErrorLevel "Could not get grpc client" (Some err) >>
      requestsInvalid_Inc "grpc" >>
      ret (None, Some err)
  | None =>
      res <- call_service MPredict service_Predict (fst r) ctx req ;;
      requestsForwarded_Inc "grpc" >>
      ret res
  end.

Definition MultiInference (server : proxyServiceServer) (ctx : Context)
    (req : option MultiInferenceRequest) :
    M (option MultiInferenceResponse * option error) :=
  ret (None, Some (errors_New "MultiInference not supported")).

Definition GetModelMetadata (server : proxyServiceServer) (ctx : Context)
    (req : option GetModelMetadataRequest) :
    M (option GetModelMetadataResponse * option error) :=
  r <- clientForSpec server (GetModelSpec req) ;;
  match snd r with
  | Some err =>
      log ErrorLevel "Could not get grpc client" (Some err) >>
      requestsInvalid_Inc "grpc" >>
      ret (None, Some err)
  | None =>
      res <- call_service MGetModelMetadata service_GetModelMetadata (fst r) ctx req ;;
      requestsForwarded_Inc "grpc" >>
      ret res
  end.

Definition SessionRun (server : proxyServiceServer) (ctx : Context)
    (req : option SessionRunRequest) :
    M (option SessionRunResponse * option error) :=
  r <- clientForSpec server (GetModelSpec req) ;;
  match snd r with
  | Some err =>
      log ErrorLevel "Could not get grpc client" (Some err) >>
      requestsInvalid_Inc "grpc" >>
      ret (None, Some err)
  | None =>
      res <- call_service MSessionRun service_SessionRun (fst r) ctx req ;;
      requestsForwarded_Inc "grpc" >>
      ret res
  end.

(** [GrpcProxy]. *)
Record GrpcProxy : Type := mkGrpcProxy {
  GrpcProxy_GrpcProxy : option grpc_Server;
  serverImpl : option proxyServiceServer;
  listener : option Listener
}.

Definition NewGrpcProxy (clientProvider : ClientProvider) : M GrpcProxy :=
  requestsForwarded_Add "grpc" 0 >>
  requestsInvalid_Add "grpc" 0 >>
  let server := {| clientProvider := clientProvider |} in
  let proxy :=
    {| GrpcProxy_GrpcProxy := None; serverImpl := Some server; listener := None |} in
  ret proxy.

(** The calls of [Listen] and [Close] that leave the package:
    [net.Listen], which yields a listener or an error; [Serve] of the
    gRPC server, which need not return ([None]: the server is still
    serving) and whose error [Listen] drops; [Close] of the listener and
    [GracefulStop] of the server. *)
Variable net_Listen : string -> string -> E -> (Listener + error) * E.
Variable grpc_Serve : grpc_Server -> Listener -> E -> option (option error * E).
Variable Listener_Close : Listener -> E -> option error * E.
Variable grpc_GracefulStop : grpc_Server -> E -> E.

Definition record_event (e : Event) (w : World) : World :=
  {| requestsForwarded := requestsForwarded w;
     requestsInvalid := requestsInvalid w;
     logged := logged w;
     trace := trace w ++ [e];
     external := external w |}.

Definition set_external (x : E) (w : World) : World :=
  {| requestsForwarded := requestsForwarded w;
     requestsInvalid := requestsInvalid w;
     logged := logged w;
     trace := trace w;
     external := x |}.

(** [grpc.NewServer()] and the registration of a service on a server. *)
Definition grpc_NewServer : grpc_Server := {| server_services := [] |}.

Definition RegisterService (name : string) (server : grpc_Server) : grpc_Server :=
  {| server_services := server_services server ++ [name] |}.

Definition PredictionService : string := "tensorflow.serving.PredictionService".
Definition SessionService : string := "tensorflow.serving.SessionService".

(** A call of [Listen] has returned an error value, or is still inside
    [Serve]; either way it leaves the proxy and the state as shown. *)
Inductive ListenResult : Type :=
  | ListenReturned (err : option error) (proxy : GrpcProxy) (w : World)
  | ListenBlocked (proxy : GrpcProxy) (w : World).

(** [GrpcProxy.Listen]; the receiver is updated in place, so the proxy
    is part of the result. *)
Definition Listen (proxy : GrpcProxy) (port : Z) (w : World) : ListenResult :=
  let proxy :=
    {| GrpcProxy_GrpcProxy := Some grpc_NewServer;
       serverImpl := serverImpl proxy;
       listener := listener proxy |} in
  let address := ":" +:+ FormatInt port in
  let w := record_event (NetListenCalled "tcp" address) w in
  match net_Listen "tcp" address (external w) with
  | (inr err, x) => ListenReturned (Some err) proxy (set_external x w)
  | (inl lis, x) =>
      let w := set_external x w in
      let server :=
        RegisterService SessionService
          (RegisterService PredictionService grpc_NewServer) in
      let proxy :=
        {| GrpcProxy_GrpcProxy := Some server;
           serverImpl := serverImpl proxy;
           listener := Some lis |} in
      let w := record_event (ServeCalled server lis) w in
      match grpc_Serve server lis (external w) with
      | Some (_, x') => ListenReturned None proxy (set_external x' w)
      | None => ListenBlocked proxy w
      end
  end.

Definition listen_returned (r : ListenResult) : option (option error) :=
  match r with
  | ListenReturned err _ _ => Some err
  | ListenBlocked _ _ => None
  end.

Definition listen_proxy (r : ListenResult) : GrpcProxy :=
  match r with
  | ListenReturned _ proxy _ => proxy
  | ListenBlocked proxy _ => proxy
  end.

Definition listen_world (r : ListenResult) : World :=
  match r with
  | ListenReturned _ _ w => w
  | ListenBlocked _ w => w
  end.

(** [GrpcProxy.Close]; a proxy that never listened has no listener to
    close. *)
Definition Close (proxy : GrpcProxy) : M (option error) :=
  match listener proxy with
  | None => panic "runtime error: invalid memory address or nil pointer dereference"
  | Some lis =>
      emit (ListenerClosed lis) >>
      err <- call (Listener_Close lis) ;;
      match GrpcProxy_GrpcProxy proxy with
      | None => panic "runtime error: invalid memory address or nil pointer dereference"
      | Some server =>
          emit (GracefulStopCalled server) >>
          call (fun x => (tt, grpc_GracefulStop server x)) >>
          ret err
      end
  end.

(** The methods the server registers for forwarding, as one table: the
    request and response message of each method, the model spec of its
    request, the remote call it forwards to, and the method itself. *)
Definition Req (m : Method) : Type :=
  match m with
  | MPredict => PredictRequest
  | MClassify => ClassificationRequest
  | MRegress => RegressionRequest
  | MGetModelMetadata => GetModelMetadataRequest
  | MSessionRun => SessionRunRequest
  end.

Definition Resp (m : Method) : Type :=
  match m with
  | MPredict => PredictResponse
  | MClassify => ClassificationResponse
  | MRegress => RegressionResponse
  | MGetModelMetadata => GetModelMetadataResponse
  | MSessionRun => SessionRunResponse
  end.

Definition model_spec (m : Method) : option (Req m) -> option ModelSpec :=
  match m with
  | MPredict => GetModelSpec
  | MClassify => GetModelSpec
  | MRegress => GetModelSpec
  | MGetModelMetadata => GetModelSpec
  | MSessionRun => GetModelSpec
  end.

Definition service (m : Method) : Rpc (Req m) (Resp m) :=
  match m with
  | MPredict => service_Predict
  | MClassify => service_Classify
  | MRegress => service_Regress
  | MGetModelMetadata => service_GetModelMetadata
  | MSessionRun => service_SessionRun
  end.

Definition invoke (m : Method) :
    proxyServiceServer -> Context -> option (Req m) ->
    M (option (Resp m) * option error) :=
  match m with
  | MPredict => Predict
  | MClassify => Classify
  | MRegress => Regress
  | MGetModelMetadata => GetModelMetadata
  | MSessionRun => SessionRun
  end.

(** The version string [clientForSpec] derives from a model spec. *)
Definition version_of (spec : option ModelSpec) : string :=
  FormatInt (GetValue (GetVersion spec)).

End Proxy.

Arguments World : clear implicits.
Arguments Outcome : clear implicits.
Arguments M : clear implicits.
Arguments Handler : clear implicits.
Arguments ReverseProxy : clear implicits.
Arguments RestProxy : clear implicits.
Arguments ClientProvider : clear implicits.
Arguments proxyServiceServer : clear implicits.
Arguments Rpc : clear implicits.
Arguments GrpcProxy : clear implicits.
Arguments ListenResult : clear implicits.
Arguments Returned {E A} a w.
Arguments Panicked {E A} reason w.

(** ** Vocabulary of the specification *)

(** The text of the [version] group when the URL matches the pattern. *)
Definition version_group (url : string) : option string :=
  match FindStringSubmatch url with
  | Some m => m !! 3
  | None => None
  end.

(** The URL matches the pattern and carries no version. *)
Definition matches_without_version (url : string) : Prop :=
  version_group url = Some EmptyString.

(** The URL matches the pattern and carries a version. *)
Definition matches_with_version (url : string) : Prop :=
  exists version, version_group url = Some version /\ version <> EmptyString.

(** The JSON document of the missing-version answer, character by
    character. *)
Definition missing_version_json : string :=
  "{" +:+ quote_char +:+ "Status" +:+ quote_char +:+ ":"
      +:+ quote_char +:+ "Error" +:+ quote_char +:+ ","
      +:+ quote_char +:+ "Message" +:+ quote_char +:+ ":"
      +:+ quote_char +:+ "Model version must be provided" +:+ quote_char +:+ "}".

(** The shape of the URLs the REST proxy forwards, read on the
    case-folded URL: [/v1/models/], a non-empty name over [[a-z0-9]],
    [/versions/], a non-empty version over [[0-9]], then anything. *)
Definition model_path_with_version (url : string) : Prop :=
  exists name version rest,
    fold_case url = "/v1/models/" +:+ name +:+ "/versions/" +:+ version +:+ rest /\
    name <> EmptyString /\ string_forallb is_lower_alnum name = true /\
    version <> EmptyString /\ string_forallb is_digit version = true.

(** The model-name segment of a URL as the specification writes the
    path: what stands between [/v1/models/] and the next slash. *)
Fixpoint strip_prefix (p s : string) : option string :=
  match p with
  | EmptyString => Some s
  | String a p' =>
      match s with
      | String b s' => if Ascii.eqb a b then strip_prefix p' s' else None
      | EmptyString => None
      end
  end.

Fixpoint until_slash (s : string) : string :=
  match s with
  | EmptyString => EmptyString
  | String c r => if Ascii.eqb c "/" then EmptyString else String c (until_slash r)
  end.

Definition model_name_segment (url : string) : option string :=
  until_slash <$> strip_prefix "/v1/models/" url.

(** ** A plain reading of the pattern

    The same pattern read without case folding, on a URL that is already
    folded: a literal is a prefix, a class is a run of bytes. *)

Fixpoint span (p : ascii -> bool) (s : string) : string * string :=
  match s with
  | EmptyString => (EmptyString, EmptyString)
  | String c r =>
      if p c then let '(m, t) := span p r in (String c m, t)
      else (EmptyString, s)
  end.

Definition folded_version (f : string) : option string :=
  match strip_prefix "/v1/models/" f with
  | Some r =>
      let '(name, r') := span is_lower_alnum r in
      if is_empty name then None
      else
        match strip_prefix "/versions/" r' with
        | Some r2 => Some (span is_digit r2).1
        | None => Some EmptyString
        end
  | None => None
  end.

(** The first byte of a string satisfies [p]. *)
Definition head_is (p : ascii -> bool) (s : string) : bool :=
  match s with
  | EmptyString => false
  | String c _ => p c
  end.

(** A byte of ASCII. *)
Definition is_ascii (c : ascii) : bool := (nat_of_ascii c <? 128)%nat.

(** A letter or digit of ASCII, in either case. *)
Definition is_alnum (c : ascii) : bool := is_lower c || is_upper c || is_digit c.

(** The routed key recorded by a [HandlerCalled] event. *)
Definition handler_key (e : Event) : option (string * string) :=
  match e with
  | HandlerCalled _ modelName version => Some (modelName, version)
  | _ => None
  end.

(** The server [Listen] serves: a new server with the two services
    registered, in the order of the source. *)
Definition listening_server : grpc_Server :=
  RegisterService SessionService (RegisterService PredictionService grpc_NewServer).

(** The address [Listen] hands to [net.Listen]. *)
Definition listen_address (port : Z) : string := ":" +:+ FormatInt port.

(** ** A small concrete deployment

    One node whose collaborators are as simple as possible; the external
    state is trivial. *)

Definition demo_transport : Request -> ResponseWriter -> unit -> ResponseWriter * unit :=
  fun _ rw x => (Write "{}" rw, x).

Definition demo_handler : Handler unit :=
  fun req _ _ x => ((None, req), x).

Definition demo_failing_handler : Handler unit :=
  fun req _ _ x => ((Some (errors_New "no nodes available"), req), x).

Definition demo_conn : ClientConn := {| conn_target := "10.0.0.2:8095" |}.

Definition demo_server : proxyServiceServer unit :=
  {| clientProvider := fun _ _ x => ((Some demo_conn, None), x) |}.

Definition demo_unavailable : error := status_Error 14 "no nodes available".

Definition demo_failing_server : proxyServiceServer unit :=
  {| clientProvider := fun _ _ x => ((None, Some demo_unavailable), x) |}.

Definition demo_Predict : Rpc unit PredictRequest PredictResponse :=
  fun _ _ _ x => ((Some {| PredictResponse_Outputs := "scores" |}, None), x).
Definition demo_Classify : Rpc unit ClassificationRequest ClassificationResponse :=
  fun _ _ _ x => ((Some {| ClassificationResponse_Result := "classes" |}, None), x).
Definition demo_Regress : Rpc unit RegressionRequest RegressionResponse :=
  fun _ _ _ x => ((None, Some (status_Error 5 "model not found")), x).
Definition demo_GetModelMetadata :
    Rpc unit GetModelMetadataRequest GetModelMetadataResponse :=
  fun _ _ _ x => ((Some {| GetModelMetadataResponse_Metadata := "signature" |}, None), x).
Definition demo_SessionRun : Rpc unit SessionRunRequest SessionRunResponse :=
  fun _ _ _ x => ((Some {| SessionRunResponse_Tensor := "tensor" |}, None), x).

Definition demo_invoke (m : Method) :=
  invoke demo_Predict demo_Classify demo_Regress demo_GetModelMetadata
    demo_SessionRun m.

Definition demo_world : World unit :=
  {| requestsForwarded := ∅; requestsInvalid := ∅; logged := []; trace := [];
     external := tt |}.

Definition demo_proxy : RestProxy unit :=
  {| RestProxy_RestProxy := {| Director := director demo_handler |} |}.

Definition demo_request (url : string) : Request :=
  {| req_Method := "GET"; req_URL := url; req_Body := EmptyString |}.

Definition demo_spec : ModelSpec :=
  {| Name := "resnet"; Version := Some {| Value := 42 |}; SignatureName := EmptyString |}.

Definition demo_PredictRequest : option PredictRequest :=
  Some {| PredictRequest_ModelSpec := Some demo_spec; PredictRequest_Inputs := "pixels" |}.

Definition demo_context : Context := {| ctx_id := 1 |}.

(** Port 8100 is free, every other port is taken; the server, once
    started, keeps serving. *)
Definition demo_net_Listen : string -> string -> unit -> (Listener + error) * unit :=
  fun _ address x =>
    if String.eqb address ":8100"
    then (inl {| listener_address := address |}, x)
    else (inr (errors_New "listen tcp: bind: address already in use"), x).

Definition demo_Serve : grpc_Server -> Listener -> unit -> option (option error * unit) :=
  fun _ _ _ => None.

Definition demo_GrpcProxy : GrpcProxy unit :=
  {| GrpcProxy_GrpcProxy := None; serverImpl := Some demo_server; listener := None |}.

(** * Properties *)

(** ** Counter vectors *)

Lemma counter_value_Add (label : string) (n : nat) (vec : gmap string nat) :
  counter_value (counter_Add label n vec) label = counter_value vec label + n.
Proof. unfold counter_value, counter_Add. by rewrite lookup_insert_eq. Qed.

Lemma counter_value_Add_ne (label other : string) (n : nat) (vec : gmap string nat) :
  label ≠ other ->
  counter_value (counter_Add label n vec) other = counter_value vec other.
Proof.
  intros Hne. unfold counter_value, counter_Add. by rewrite lookup_insert_ne.
Qed.

(** ** Strings *)

Lemma append_cons (c : ascii) (s t : string) : String c s +:+ t = String c (s +:+ t).
Proof. reflexivity. Qed.

Lemma append_assoc (s t u : string) : (s +:+ t) +:+ u = s +:+ (t +:+ u).
Proof.
  induction s as [|c s IH]; [done|]. by rewrite !append_cons, IH.
Qed.

Lemma is_empty_false (s : string) : is_empty s = false <-> s <> EmptyString.
Proof. destruct s; cbn; split; congruence. Qed.

(** ** Decimal rendering *)

Lemma nat_of_digit_char (d : Z) :
  (0 <= d < 10)%Z -> nat_of_ascii (digit_char d) = 48 + Z.to_nat d.
Proof.
  intros Hd. unfold digit_char. apply nat_ascii_embedding. lia.
Qed.

Lemma is_digit_digit_char (d : Z) : (0 <= d < 10)%Z -> is_digit (digit_char d) = true.
Proof.
  intros Hd. unfold is_digit, byte_in. rewrite nat_of_digit_char by done.
  apply andb_true_intro. split; apply Nat.leb_le; lia.
Qed.

Lemma digits_value_app (s t : string) (acc : Z) :
  digits_value (s +:+ t) acc =
    match digits_value s acc with
    | Some a => digits_value t a
    | None => None
    end.
Proof.
  revert acc. induction s as [|c s IH]; intros acc; [done|].
  rewrite append_cons. cbn. destruct (is_digit c); [apply IH | done].
Qed.

Lemma formatBits_S (n : nat) (u : Z) (acc : string) :
  formatBits (S n) u acc =
    if (u <? 10)%Z then String (digit_char u) acc
    else formatBits n (u / 10)%Z (String (digit_char (u mod 10)%Z) acc).
Proof. reflexivity. Qed.

Lemma formatBits_acc (n : nat) (u : Z) (acc : string) :
  formatBits n u acc = formatBits n u EmptyString +:+ acc.
Proof.
  revert u acc. induction n as [|n IH]; intros u acc; [done|].
  cbn. destruct (u <? 10)%Z; [done|].
  rewrite (IH _ (String _ acc)), (IH _ (String _ EmptyString)).
  by rewrite append_assoc.
Qed.

Lemma digits_value_formatBits (n : nat) (u : Z) :
  (0 <= u < 10 ^ Z.of_nat n)%Z ->
  digits_value (formatBits n u EmptyString) 0 = Some u.
Proof.
  revert u. induction n as [|n IH]; intros u Hu.
  - cbn in *. f_equal. lia.
  - rewrite formatBits_S. destruct (u <? 10)%Z eqn:Hlt.
    + apply Z.ltb_lt in Hlt. cbn.
      rewrite is_digit_digit_char, nat_of_digit_char by lia. f_equal. lia.
    + apply Z.ltb_ge in Hlt.
      rewrite formatBits_acc, digits_value_app, IH.
      * cbn. assert (0 <= u mod 10 < 10)%Z by (apply Z.mod_pos_bound; lia).
        rewrite is_digit_digit_char, nat_of_digit_char by done. f_equal.
        pose proof (Z.div_mod u 10). lia.
      * rewrite Nat2Z.inj_succ, Z.pow_succ_r in Hu by lia.
        split; [apply Z.div_pos; lia|].
        apply Z.div_lt_upper_bound; lia.
Qed.

(** The first character a magnitude prints is a digit, not the sign. *)
Lemma formatBits_head (n : nat) (u : Z) :
  (0 <= u)%Z ->
  exists c r, formatBits (S n) u EmptyString = String c r /\ is_digit c = true.
Proof.
  revert u. induction n as [|n IH]; intros u Hu.
  - rewrite formatBits_S. cbn [formatBits]. destruct (u <? 10)%Z eqn:Hlt.
    + apply Z.ltb_lt in Hlt. eexists _, _. split; [done|].
      apply is_digit_digit_char. lia.
    + eexists _, _. split; [done|]. apply is_digit_digit_char.
      apply Z.mod_pos_bound. lia.
  - rewrite formatBits_S. destruct (u <? 10)%Z eqn:Hlt.
    + apply Z.ltb_lt in Hlt. eexists _, _. split; [done|].
      apply is_digit_digit_char. lia.
    + rewrite formatBits_acc.
      destruct (IH (u / 10)%Z) as (c & r & Heq & Hc); [apply Z.div_pos; lia|].
      rewrite Heq, append_cons. eauto.
Qed.

Lemma decimal_value_FormatInt (i : Z) :
  (int64_min <= i <= int64_max)%Z -> decimal_value (FormatInt i) = Some i.
Proof.
  unfold int64_min, int64_max. intros Hi. unfold FormatInt.
  destruct (i <? 0)%Z eqn:Hneg.
  - apply Z.ltb_lt in Hneg. unfold decimal_value.
    replace (Ascii.eqb "-" "-") with true by done.
    destruct (formatBits_head 19 (- i)%Z) as (c & r & Heq & _); [lia|].
    rewrite Heq. cbn [is_empty]. rewrite <- Heq.
    rewrite digits_value_formatBits by (cbn; lia). cbn. f_equal. lia.
  - apply Z.ltb_ge in Hneg.
    destruct (formatBits_head 19 i) as (c & r & Heq & Hc); [lia|].
    unfold decimal_value. rewrite Heq.
    destruct (Ascii.eqb c "-") eqn:Hminus.
    + apply Ascii.eqb_eq in Hminus. subst c. discriminate Hc.
    + rewrite <- Heq. apply digits_value_formatBits. cbn. lia.
Qed.

(** ** The URL pattern *)

Lemma byte_in_true (lo hi : nat) (c : ascii) :
  byte_in lo hi c = true <-> lo <= nat_of_ascii c <= hi.
Proof.
  unfold byte_in. rewrite andb_true_iff, !Nat.leb_le. done.
Qed.

Lemma byte_in_false (lo hi : nat) (c : ascii) :
  byte_in lo hi c = false <-> ~ (lo <= nat_of_ascii c <= hi).
Proof.
  rewrite <- byte_in_true. by destruct (byte_in lo hi c).
Qed.

Lemma to_lower_id (c : ascii) : is_upper c = false -> to_lower c = c.
Proof. unfold to_lower. by intros ->. Qed.

Lemma to_lower_upper (c : ascii) :
  is_upper c = true -> nat_of_ascii (to_lower c) = nat_of_ascii c + 32.
Proof.
  intros H. unfold to_lower. rewrite H. apply nat_ascii_embedding.
  apply byte_in_true in H. lia.
Qed.

(** Only a digit folds to a digit. *)
Lemma is_digit_to_lower (c : ascii) : is_digit (to_lower c) = true -> is_upper c = false.
Proof.
  intros H. destruct (is_upper c) eqn:Hup; [|done].
  apply byte_in_true in H. rewrite (to_lower_upper _ Hup) in H.
  apply byte_in_true in Hup. lia.
Qed.

Lemma fold_case_step (s : string) :
  fold_case s =
    match read_folded s with
    | Some (c, _, r) => String c (fold_case r)
    | None => EmptyString
    end.
Proof.
  destruct s as [|c [|c2 [|c3 r3]]]; try reflexivity.
  - change (fold_case (String c (String c2 EmptyString))) with
      (if (nat_of_ascii c =? 197) && (nat_of_ascii c2 =? 191)
       then String "s" (fold_case EmptyString)
       else String (to_lower c) (fold_case (String c2 EmptyString))).
    unfold read_folded.
    by destruct ((nat_of_ascii c =? 197) && (nat_of_ascii c2 =? 191)).
  - change (fold_case (String c (String c2 (String c3 r3)))) with
      (if (nat_of_ascii c =? 197) && (nat_of_ascii c2 =? 191)
       then String "s" (fold_case (String c3 r3))
       else if (nat_of_ascii c =? 226) && (nat_of_ascii c2 =? 132)
               && (nat_of_ascii c3 =? 170)
            then String "k" (fold_case r3)
            else String (to_lower c) (fold_case (String c2 (String c3 r3)))).
    unfold read_folded.
    destruct ((nat_of_ascii c =? 197) && (nat_of_ascii c2 =? 191)); [done|].
    by destruct ((nat_of_ascii c =? 226) && (nat_of_ascii c2 =? 132)
                 && (nat_of_ascii c3 =? 170)).
Qed.

Lemma scan_alnum_step (s : string) :
  scan_alnum s =
    match read_folded s with
    | Some (c, raw, r) =>
        if is_lower_alnum c
        then (raw +:+ (scan_alnum r).1, (scan_alnum r).2)
        else (EmptyString, s)
    | None => (EmptyString, EmptyString)
    end.
Proof.
  destruct s as [|c [|c2 [|c3 r3]]]; try reflexivity.
  - change (scan_alnum (String c (String c2 EmptyString))) with
      (if (nat_of_ascii c =? 197) && (nat_of_ascii c2 =? 191)
       then let '(m, t) := scan_alnum EmptyString in (String c (String c2 m), t)
       else if is_lower_alnum (to_lower c)
            then let '(m, t) := scan_alnum (String c2 EmptyString) in (String c m, t)
            else (EmptyString, String c (String c2 EmptyString))).
    unfold read_folded.
    destruct ((nat_of_ascii c =? 197) && (nat_of_ascii c2 =? 191)); [done|].
    destruct (is_lower_alnum (to_lower c)); [|done].
    by destruct (scan_alnum (String c2 EmptyString)).
  - change (scan_alnum (String c (String c2 (String c3 r3)))) with
      (if (nat_of_ascii c =? 197) && (nat_of_ascii c2 =? 191)
       then let '(m, t) := scan_alnum (String c3 r3) in (String c (String c2 m), t)
       else if (nat_of_ascii c =? 226) && (nat_of_ascii c2 =? 132)
               && (nat_of_ascii c3 =? 170)
            then let '(m, t) := scan_alnum r3 in
                 (String c (String c2 (String c3 m)), t)
            else if is_lower_alnum (to_lower c)
                 then let '(m, t) := scan_alnum (String c2 (String c3 r3)) in
                      (String c m, t)
                 else (EmptyString, String c (String c2 (String c3 r3)))).
    unfold read_folded.
    destruct ((nat_of_ascii c =? 197) && (nat_of_ascii c2 =? 191)).
    { by destruct (scan_alnum (String c3 r3)). }
    destruct ((nat_of_ascii c =? 226) && (nat_of_ascii c2 =? 132)
              && (nat_of_ascii c3 =? 170)).
    { by destruct (scan_alnum r3). }
    destruct (is_lower_alnum (to_lower c)); [|done].
    by destruct (scan_alnum (String c2 (String c3 r3))).
Qed.

Lemma read_folded_split (s : string) c raw r :
  read_folded s = Some (c, raw, r) -> s = raw +:+ r /\ raw <> EmptyString.
Proof.
  unfold read_folded.
  destruct s as [|c0 [|c2 [|c3 r3]]]; [done| |  |].
  - intros [= <- <- <-]. done.
  - destruct ((nat_of_ascii c0 =? 197) && (nat_of_ascii c2 =? 191));
      intros [= <- <- <-]; done.
  - destruct ((nat_of_ascii c0 =? 197) && (nat_of_ascii c2 =? 191));
      [intros [= <- <- <-]; done|].
    destruct ((nat_of_ascii c0 =? 226) && (nat_of_ascii c2 =? 132)
              && (nat_of_ascii c3 =? 170));
      intros [= <- <- <-]; done.
Qed.

Lemma read_folded_of_digit (c : ascii) (r : string) :
  is_digit c = true -> read_folded (String c r) = Some (c, String c EmptyString, r).
Proof.
  intros Hd. pose proof Hd as Hn. apply byte_in_true in Hn.
  assert ((nat_of_ascii c =? 197) = false) as H1 by (apply Nat.eqb_neq; lia).
  assert ((nat_of_ascii c =? 226) = false) as H2 by (apply Nat.eqb_neq; lia).
  assert (to_lower c = c) as Hl.
  { apply to_lower_id, byte_in_false. lia. }
  unfold read_folded. rewrite H1, H2, Hl. cbn.
  by destruct r as [|c2 [|c3 r3]].
Qed.

Lemma read_folded_digit (s : string) c raw r :
  read_folded s = Some (c, raw, r) -> is_digit c = true -> s = String c r.
Proof.
  assert (forall c0 : ascii, is_digit (to_lower c0) = true -> to_lower c0 = c0) as Hl.
  { intros c0 H. by apply to_lower_id, is_digit_to_lower. }
  unfold read_folded.
  destruct s as [|c0 [|c2 [|c3 r3]]]; [done| |  |].
  - intros [= <- <- <-] Hd. by rewrite Hl.
  - destruct ((nat_of_ascii c0 =? 197) && (nat_of_ascii c2 =? 191));
      intros [= <- <- <-] Hd; [done|]. by rewrite Hl.
  - destruct ((nat_of_ascii c0 =? 197) && (nat_of_ascii c2 =? 191));
      [intros [= <- <- <-] Hd; done|].
    destruct ((nat_of_ascii c0 =? 226) && (nat_of_ascii c2 =? 132)
              && (nat_of_ascii c3 =? 170));
      intros [= <- <- <-] Hd; [done|]. by rewrite Hl.
Qed.

Lemma string_length_append (s t : string) :
  String.length (s +:+ t) = String.length s + String.length t.
Proof. induction s as [|c s IH]; [done|]. rewrite append_cons. cbn. by rewrite IH. Qed.

Lemma read_folded_shorter (s : string) c raw r :
  read_folded s = Some (c, raw, r) -> String.length r < String.length s.
Proof.
  intros H. destruct (read_folded_split _ _ _ _ H) as [-> Hraw].
  rewrite string_length_append. destruct raw; [done|]. cbn. lia.
Qed.

(** A matched literal is, after folding, the literal itself. *)
Lemma match_literal_fold (lit s : string) m t :
  match_literal lit s = Some (m, t) -> fold_case s = lit +:+ fold_case t.
Proof.
  revert s m t. induction lit as [|p lit IH]; intros s m t H.
  - cbn in H. by injection H as <- <-.
  - cbn [match_literal] in H. rewrite fold_case_step.
    destruct (read_folded s) as [[[c raw] r]|]; [|done].
    destruct (Ascii.eqb c p) eqn:Hc; [|done].
    apply Ascii.eqb_eq in Hc. subst c.
    destruct (match_literal lit r) as [[m' t']|] eqn:Hm; [|done].
    injection H as <- <-. by rewrite append_cons, (IH _ _ _ Hm).
Qed.

Lemma fold_match_literal (lit s u : string) :
  fold_case s = lit +:+ u ->
  exists m t, match_literal lit s = Some (m, t) /\ fold_case t = u.
Proof.
  revert s. induction lit as [|p lit IH]; intros s H.
  - cbn. eauto.
  - rewrite fold_case_step, append_cons in H. cbn [match_literal].
    destruct (read_folded s) as [[[c raw] r]|]; [|done].
    injection H as -> Hr. rewrite Ascii.eqb_refl.
    destruct (IH _ Hr) as (m & t & -> & Ht). eauto.
Qed.

(** A scanned name is, after folding, a word over [[a-z0-9]]. *)
Lemma scan_alnum_fold (s : string) m t :
  scan_alnum s = (m, t) ->
  exists n,
    fold_case s = n +:+ fold_case t /\
    string_forallb is_lower_alnum n = true /\
    (m <> EmptyString -> n <> EmptyString).
Proof.
  remember (String.length s) as k eqn:Hk. revert s m t Hk.
  induction k as [k IH] using lt_wf_ind. intros s m t -> H.
  rewrite scan_alnum_step in H. rewrite (fold_case_step s).
  destruct (read_folded s) as [[[c raw] r]|] eqn:Hread.
  - destruct (is_lower_alnum c) eqn:Hc.
    + injection H as <- <-.
      destruct (scan_alnum r) as [m' t'] eqn:Hscan.
      destruct (IH _ (read_folded_shorter _ _ _ _ Hread) r m' t' eq_refl Hscan)
        as (n & Hn & Hall & _).
      exists (String c n). cbn. rewrite Hn, Hc, Hall. done.
    + injection H as <- <-. exists EmptyString.
      rewrite (fold_case_step s), Hread. done.
  - injection H as <- <-. by exists EmptyString.
Qed.

Lemma fold_scan_alnum (n s : string) (c0 : ascii) (u : string) :
  fold_case s = n +:+ String c0 u ->
  string_forallb is_lower_alnum n = true ->
  is_lower_alnum c0 = false ->
  exists m t,
    scan_alnum s = (m, t) /\ fold_case t = String c0 u /\
    (n <> EmptyString -> m <> EmptyString).
Proof.
  revert s. induction n as [|a n IH]; intros s H Hall Hc0.
  - exists EmptyString, s. rewrite scan_alnum_step.
    rewrite fold_case_step in H.
    destruct (read_folded s) as [[[c raw] r]|] eqn:Hread; [|done].
    injection H as -> Hr. rewrite Hc0. split; [done|].
    split; [|done]. by rewrite fold_case_step, Hread, Hr.
  - rewrite fold_case_step, append_cons in H. rewrite scan_alnum_step.
    destruct (read_folded s) as [[[c raw] r]|] eqn:Hread; [|done].
    injection H as -> Hr. cbn in Hall. apply andb_true_iff in Hall as [Ha Hall].
    rewrite Ha. destruct (IH _ Hr Hall Hc0) as (m & t & Hscan & Ht & _).
    rewrite Hscan. exists (raw +:+ m), t. split; [done|]. split; [done|].
    intros _. destruct (read_folded_split _ _ _ _ Hread) as [_ Hraw].
    by destruct raw.
Qed.

Lemma scan_digits_fold (s : string) m t :
  scan_digits s = (m, t) ->
  fold_case s = m +:+ fold_case t /\ string_forallb is_digit m = true.
Proof.
  revert m t. induction s as [|c r IH]; intros m t H.
  - by injection H as <- <-.
  - cbn [scan_digits] in H. destruct (is_digit c) eqn:Hc.
    + destruct (scan_digits r) as [m' t'] eqn:Hscan. injection H as <- <-.
      destruct (IH _ _ eq_refl) as [Hf Hall].
      rewrite fold_case_step, (read_folded_of_digit _ _ Hc), Hf.
      cbn. by rewrite Hc, Hall.
    + by injection H as <- <-.
Qed.

Lemma fold_scan_digits (s : string) (d : ascii) (u : string) :
  fold_case s = String d u -> is_digit d = true ->
  (scan_digits s).1 <> EmptyString.
Proof.
  intros H Hd. rewrite fold_case_step in H.
  destruct (read_folded s) as [[[c raw] r]|] eqn:Hread; [|done].
  injection H as -> Hr. rewrite (read_folded_digit _ _ _ _ Hread Hd).
  cbn. rewrite Hd. by destruct (scan_digits r).
Qed.

(** The URLs whose version group is not empty are those of the shape
    [model_path_with_version]. *)
Lemma matches_with_version_shape (url : string) :
  matches_with_version url <-> model_path_with_version url.
Proof.
  unfold matches_with_version, model_path_with_version, version_group,
    FindStringSubmatch, match_version_group.
  split.
  - intros (version & H & Hne).
    destruct (match_literal "/v1/models/" url) as [[lit r]|] eqn:Hlit; [|done].
    destruct (scan_alnum r) as [name r'] eqn:Hname.
    destruct (is_empty name) eqn:Hempty; [done|].
    apply is_empty_false in Hempty.
    destruct (match_literal "/versions/" r') as [[lit2 r2]|] eqn:Hlit2;
      [|cbn in H; congruence].
    destruct (scan_digits r2) as [v t] eqn:Hv.
    destruct (is_empty v) eqn:Hvempty; cbn in H; [congruence|].
    injection H as ->.
    apply match_literal_fold in Hlit, Hlit2.
    destruct (scan_alnum_fold _ _ _ Hname) as (n & Hn & Hall & Hnn).
    destruct (scan_digits_fold _ _ _ Hv) as [Hvf Hvall].
    exists n, version, (fold_case t).
    rewrite Hlit, Hn, Hlit2, Hvf. auto.
  - intros (name & version & rest & Hfold & Hname & Hall & Hver & Hvall).
    destruct (fold_match_literal _ _ _ Hfold) as (lit & r & -> & Hr).
    change ("/versions/" +:+ version +:+ rest)
      with (String "/" ("versions/" +:+ version +:+ rest)) in Hr.
    destruct (fold_scan_alnum _ _ _ _ Hr Hall eq_refl) as (m & r' & -> & Hr' & Hm).
    apply Hm, is_empty_false in Hname. rewrite Hname.
    change (String "/" ("versions/" +:+ version +:+ rest))
      with ("/versions/" +:+ version +:+ rest) in Hr'.
    destruct (fold_match_literal _ _ _ Hr') as (lit2 & r2 & -> & Hr2).
    destruct version as [|d version]; [done|].
    rewrite append_cons in Hr2. cbn in Hvall.
    apply andb_true_iff in Hvall as [Hd _].
    pose proof (fold_scan_digits _ _ _ Hr2 Hd) as Hv.
    destruct (scan_digits r2) as [v t]. cbn in Hv.
    apply is_empty_false in Hv. rewrite Hv. cbn.
    exists v. split; [done|]. by apply is_empty_false.
Qed.

Section ProxyFacts.

Context {E : Type}.
Variable transport : Request -> ResponseWriter -> E -> ResponseWriter * E.
Variable service_Predict : Rpc E PredictRequest PredictResponse.
Variable service_Classify : Rpc E ClassificationRequest ClassificationResponse.
Variable service_Regress : Rpc E RegressionRequest RegressionResponse.
Variable service_GetModelMetadata :
  Rpc E GetModelMetadataRequest GetModelMetadataResponse.
Variable service_SessionRun : Rpc E SessionRunRequest SessionRunResponse.

Ltac run :=
  unfold clientForSpec, call_clientProvider, call_service, call_handler,
    round_trip, requestsInvalid_Inc, requestsForwarded_Inc,
    requestsInvalid_Add, requestsForwarded_Add, log, emit, call, bind, ret;
  cbn.

(** What [clientForSpec] does: one recorded call of the provider. *)
Lemma clientForSpec_run (server : proxyServiceServer E) (spec : option ModelSpec)
    (w : World E) r x :
  clientProvider server (GetName spec) (version_of spec) (external w) = (r, x) ->
  clientForSpec server spec w =
    Returned r
      {| requestsForwarded := requestsForwarded w;
         requestsInvalid := requestsInvalid w;
         logged := logged w;
         trace := trace w ++ [ClientProviderCalled (GetName spec) (version_of spec)];
         external := x |}.
Proof. unfold version_of. intros H. run. by rewrite H. Qed.

Local Abbreviation invoke_ :=
  (invoke service_Predict service_Classify service_Regress
     service_GetModelMetadata service_SessionRun).
Local Abbreviation service_ :=
  (service service_Predict service_Classify service_Regress
     service_GetModelMetadata service_SessionRun).

(** A forwarding method whose provider fails: the state after it and
    what it returns. *)
Lemma invoke_provider_error (m : Method) (server : proxyServiceServer E)
    (ctx : Context) (req : option (Req m)) (w : World E) client err x :
  clientProvider server (GetName (model_spec m req)) (version_of (model_spec m req))
    (external w) = ((client, Some err), x) ->
  invoke_ m server ctx req w =
    Returned (None, Some err)
      {| requestsForwarded := requestsForwarded w;
         requestsInvalid := counter_Add "grpc" 1 (requestsInvalid w);
         logged := logged w ++ [mkLogEntry ErrorLevel "Could not get grpc client" (Some err)];
         trace := trace w ++
           [ClientProviderCalled (GetName (model_spec m req))
              (version_of (model_spec m req))];
         external := x |}.
Proof.
  intros H.
  destruct m; cbn [invoke model_spec Req Resp] in *;
    unfold Predict, Classify, Regress, GetModelMetadata, SessionRun, bind at 1;
    rewrite (clientForSpec_run _ _ _ _ _ H); cbn [snd]; run; reflexivity.
Qed.

(** A forwarding method whose provider succeeds: one remote call, whose
    result is handed back. *)
Lemma invoke_forwarded (m : Method) (server : proxyServiceServer E)
    (ctx : Context) (req : option (Req m)) (w : World E) client x res x' :
  clientProvider server (GetName (model_spec m req)) (version_of (model_spec m req))
    (external w) = ((client, None), x) ->
  service_ m client ctx req x = (res, x') ->
  invoke_ m server ctx req w =
    Returned res
      {| requestsForwarded := counter_Add "grpc" 1 (requestsForwarded w);
         requestsInvalid := requestsInvalid w;
         logged := logged w;
         trace := trace w ++
           [ClientProviderCalled (GetName (model_spec m req))
              (version_of (model_spec m req))] ++ [UpstreamCalled m client];
         external := x' |}.
Proof.
  intros H Hs.
  destruct m; cbn [invoke model_spec service Req Resp] in *;
    unfold Predict, Classify, Regress, GetModelMetadata, SessionRun, bind at 1;
    rewrite (clientForSpec_run _ _ _ _ _ H); cbn [snd fst]; run;
    rewrite Hs; cbn; by rewrite <- app_assoc.
Qed.

(** *** The REST handler, case by case *)

Lemma FindStringSubmatch_shape (url : string) (m : list string) :
  FindStringSubmatch url = Some m ->
  exists whole name grp version,
    m = [whole; name; grp; version] /\ name <> EmptyString.
Proof.
  unfold FindStringSubmatch. intros H.
  destruct (match_literal "/v1/models/" url) as [[lit r]|]; [|done].
  destruct (scan_alnum r) as [name r'].
  destruct (is_empty name) eqn:Hname; [done|].
  destruct (match_version_group r') as [[grp version] t].
  injection H as <-. apply is_empty_false in Hname. eauto 6.
Qed.

(** No match: the index expression panics before anything is written. *)
Lemma Serve_unmatched (handler : RestProxy E) (rw : ResponseWriter) (req : Request)
    (w : World E) :
  FindStringSubmatch (req_URL req) = None ->
  Serve transport handler rw req w =
    Panicked "runtime error: index out of range"
      {| requestsForwarded := requestsForwarded w;
         requestsInvalid := requestsInvalid w;
         logged := logged w ++ [mkLogEntry DebugLevel ("Handling URL: " +:+ req_URL req) None];
         trace := trace w;
         external := external w |}.
Proof. intros H. unfold Serve. rewrite H. reflexivity. Qed.

(** A match with an empty version group: the local 400. *)
Lemma Serve_without_version (handler : RestProxy E) (rw : ResponseWriter)
    (req : Request) (w : World E) whole name grp :
  FindStringSubmatch (req_URL req) = Some [whole; name; grp; EmptyString] ->
  Serve transport handler rw req w =
    Returned
      (json_Encode {| Status := "Error"; Message := "Model version must be provided" |}
         (WriteHeader StatusBadRequest
            (Header_Set "Content-Type" "application/json" rw)))
      {| requestsForwarded := requestsForwarded w;
         requestsInvalid := counter_Add "rest" 1 (requestsInvalid w);
         logged := logged w ++
           [mkLogEntry DebugLevel ("Handling URL: " +:+ req_URL req) None;
            mkLogEntry DebugLevel
              ("Model name: '" +:+ name +:+ "' Version: '" +:+ EmptyString +:+ "'") None];
         trace := trace w;
         external := external w |}.
Proof.
  intros H. unfold Serve. rewrite H. run. by rewrite <- app_assoc.
Qed.

(** A match with a version: the counter, then the reverse proxy. *)
Lemma Serve_with_version (handler : RestProxy E) (rw : ResponseWriter)
    (req : Request) (w : World E) whole name grp version :
  FindStringSubmatch (req_URL req) = Some [whole; name; grp; version] ->
  version <> EmptyString ->
  Serve transport handler rw req w =
    ReverseProxy_ServeHTTP transport (RestProxy_RestProxy handler) rw req
      {| requestsForwarded := counter_Add "rest" 1 (requestsForwarded w);
         requestsInvalid := requestsInvalid w;
         logged := logged w ++
           [mkLogEntry DebugLevel ("Handling URL: " +:+ req_URL req) None;
            mkLogEntry DebugLevel
              ("Model name: '" +:+ name +:+ "' Version: '" +:+ version +:+ "'") None];
         trace := trace w;
         external := external w |}.
Proof.
  intros H Hv. unfold Serve. rewrite H.
  unfold bind at 1. unfold log at 1. unfold bind at 1. unfold index at 1. cbn [default lookup].
  apply String.eqb_neq in Hv. run. rewrite Hv. by rewrite <- app_assoc.
Qed.

(** The director on a matching URL. *)
Lemma director_run (handler : Handler E) (req : Request) (w : World E)
    whole name grp version err req' x :
  FindStringSubmatch (req_URL req) = Some [whole; name; grp; version] ->
  handler req name version (external w) = ((err, req'), x) ->
  director handler req w =
    Returned req'
      {| requestsForwarded := requestsForwarded w;
         requestsInvalid := counter_Add "rest" 1 (requestsInvalid w);
         logged := logged w ++
           [mkLogEntry DebugLevel ("Handling URL: " +:+ req_URL req) None;
            mkLogEntry DebugLevel
              ("Model name: '" +:+ name +:+ "' Version: '" +:+ version +:+ "'") None];
         trace := trace w ++ [HandlerCalled req name version];
         external := x |}.
Proof.
  intros H Hh. unfold director. rewrite H. run. rewrite Hh. cbn.
  rewrite <- app_assoc. by destruct err.
Qed.

Lemma version_group_Some (url version : string) :
  version_group url = Some version ->
  exists whole name grp,
    FindStringSubmatch url = Some [whole; name; grp; version] /\ name <> EmptyString.
Proof.
  unfold version_group. intros H.
  destruct (FindStringSubmatch url) as [m|] eqn:Hm; [|done].
  destruct (FindStringSubmatch_shape _ _ Hm) as (whole & name & grp & v & -> & Hname).
  cbn in H. injection H as ->. eauto.
Qed.

Lemma NewRestProxy_proxy (handler : Handler E) (w w' : World E) (p : RestProxy E) :
  NewRestProxy handler w = Returned p w' ->
  p = {| RestProxy_RestProxy := {| Director := director handler |} |}.
Proof. unfold NewRestProxy. run. congruence. Qed.

(** *** The REST claims *)

(** C1: a request whose URL matches the pattern without a version is
    answered locally: status 400, content type JSON, and as body the
    document [{"Status":"Error","Message":"Model version must be provided"}]
    followed by the line feed that ends every [Encode]; the counter
    [invalid_total{rest}] grows by one, [forwards_total] is untouched, and
    nothing is handed to the reverse proxy (the trace does not grow). *)
Theorem Serve_missing_version_is_bad_request (handler : RestProxy E)
    (rw : ResponseWriter) (req : Request) (w : World E) :
  matches_without_version (req_URL req) ->
  rw_Status rw = None ->
  rw_Body rw = EmptyString ->
  exists rw',
    result (Serve transport handler rw req w) = Some rw' /\
    rw_Status rw' = Some 400 /\
    rw_Body rw' = missing_version_json +:+ newline /\
    rw_Header rw' !! "Content-Type" = Some ["application/json"] /\
    counter_value (requestsInvalid (final_world (Serve transport handler rw req w))) "rest"
      = counter_value (requestsInvalid w) "rest" + 1 /\
    requestsForwarded (final_world (Serve transport handler rw req w))
      = requestsForwarded w /\
    trace (final_world (Serve transport handler rw req w)) = trace w.
Proof.
  intros Hm Hstatus Hbody.
  destruct (version_group_Some _ _ Hm) as (whole & name & grp & Hfind & _).
  rewrite (Serve_without_version _ _ _ _ _ _ _ Hfind). cbn [result final_world].
  eexists. split; [reflexivity|].
  unfold json_Encode, Write, WriteHeader, Header_Set. cbn. rewrite Hstatus. cbn.
  rewrite Hbody, counter_value_Add, lookup_insert_eq. done.
Qed.

(** C2: on every request that reaches the director, whatever the routing
    handler returns (an error or none), the director adds one to
    [invalid_total{rest}] and leaves [forwards_total] as it was. *)
Theorem director_counts_every_request_invalid (handler : Handler E) (req : Request)
    (w : World E) (version : string) :
  version_group (req_URL req) = Some version ->
  exists req',
    result (director handler req w) = Some req' /\
    counter_value (requestsInvalid (final_world (director handler req w))) "rest"
      = counter_value (requestsInvalid w) "rest" + 1 /\
    requestsForwarded (final_world (director handler req w)) = requestsForwarded w.
Proof.
  intros Hv.
  destruct (version_group_Some _ _ Hv) as (whole & name & grp & Hfind & _).
  destruct (handler req name version (external w)) as [[err req'] x] eqn:Hh.
  rewrite (director_run _ _ _ _ _ _ _ _ _ _ Hfind Hh). cbn.
  exists req'. by rewrite counter_value_Add.
Qed.

(** C4, the behaviour at a URL that does not match: [/v1/models/] has no
    model name, [FindStringSubmatch] returns nil, and [Serve] panics on
    [matches[1]]: no status and no body are written, and no counter
    moves. *)
Theorem Serve_unmatched_URL_panics (handler : RestProxy E) (rw : ResponseWriter)
    (w : World E) :
  FindStringSubmatch "/v1/models/" = None /\
  result (Serve transport handler rw (demo_request "/v1/models/") w) = None /\
  requestsInvalid (final_world (Serve transport handler rw (demo_request "/v1/models/") w))
    = requestsInvalid w /\
  requestsForwarded (final_world (Serve transport handler rw (demo_request "/v1/models/") w))
    = requestsForwarded w.
Proof.
  assert (FindStringSubmatch "/v1/models/" = None) as H by reflexivity.
  split; [done|]. by rewrite (Serve_unmatched _ _ (demo_request "/v1/models/") _ H).
Qed.

(** *** The gRPC claims *)

(** C5, as the code has it: [MultiInference] fails for every server and
    request.  It returns a nil response and the plain error
    "MultiInference not supported", an [errors.New] value that carries
    no gRPC status: its status code is [Unknown], not [Unimplemented].
    The state is left as it was found: the trace shows neither a call of
    the client provider nor an upstream call, and no counter moves. *)
Theorem MultiInference_fails_with_a_plain_error (server : proxyServiceServer E)
    (ctx : Context) (req : option MultiInferenceRequest) (w : World E) :
  exists err,
    result (MultiInference server ctx req w) = Some (None, Some err) /\
    err = errors_New "MultiInference not supported" /\
    status_Code (Some err) = codes_Unknown /\
    status_Code (Some err) <> codes_Unimplemented /\
    trace (final_world (MultiInference server ctx req w)) = trace w /\
    requestsForwarded (final_world (MultiInference server ctx req w))
      = requestsForwarded w /\
    requestsInvalid (final_world (MultiInference server ctx req w))
      = requestsInvalid w /\
    external (final_world (MultiInference server ctx req w)) = external w.
Proof.
  exists (errors_New "MultiInference not supported").
  unfold MultiInference, ret. cbn [result final_world status_Code].
  repeat split; try reflexivity. discriminate.
Qed.

(** C6: each forwarding method calls the client provider once, first of
    all, with the name of the request's model spec and with the decimal
    numeral of its numeric version; that numeral reads back as the
    version, and it is "0" when the version is zero or absent. *)
Theorem clientProvider_gets_name_and_decimal_version (m : Method)
    (server : proxyServiceServer E) (ctx : Context) (req : option (Req m)) (w : World E) :
  (int64_min <= GetValue (GetVersion (model_spec m req)) <= int64_max)%Z ->
  (exists rest,
     trace (final_world (invoke_ m server ctx req w)) =
       trace w ++
       ClientProviderCalled (GetName (model_spec m req))
         (FormatInt (GetValue (GetVersion (model_spec m req)))) :: rest /\
     (rest = [] \/ exists client, rest = [UpstreamCalled m client])) /\
  decimal_value (FormatInt (GetValue (GetVersion (model_spec m req))))
    = Some (GetValue (GetVersion (model_spec m req))) /\
  (GetVersion (model_spec m req) = None \/
   GetValue (GetVersion (model_spec m req)) = 0%Z ->
   FormatInt (GetValue (GetVersion (model_spec m req))) = "0").
Proof.
  intros Hrange. split; [|split].
  - destruct (clientProvider server (GetName (model_spec m req))
                (version_of (model_spec m req)) (external w))
      as [[client [err|]] x] eqn:Hp.
    + rewrite (invoke_provider_error _ _ _ _ _ _ _ _ Hp). cbn. eauto.
    + destruct (service_ m client ctx req x) as [res x'] eqn:Hs.
      rewrite (invoke_forwarded _ _ _ _ _ _ _ _ _ Hp Hs). cbn. eauto.
  - by apply decimal_value_FormatInt.
  - intros [Hnone | Hzero].
    + by rewrite Hnone.
    + by rewrite Hzero.
Qed.

(** C7: when the provider yields a client, what the upstream call
    returns for the request, response and error alike, is exactly what
    the method returns. *)
Theorem upstream_result_is_passed_through (m : Method) (server : proxyServiceServer E)
    (ctx : Context) (req : option (Req m)) (w : World E) client x res x' :
  clientProvider server (GetName (model_spec m req)) (version_of (model_spec m req))
    (external w) = ((client, None), x) ->
  service_ m client ctx req x = (res, x') ->
  result (invoke_ m server ctx req w) = Some res.
Proof.
  intros Hp Hs. by rewrite (invoke_forwarded _ _ _ _ _ _ _ _ _ Hp Hs).
Qed.

(** C10: when the provider returns an error, the method returns a nil
    response with that very error, [invalid_total{grpc}] grows by one,
    [forwards_total] is untouched, and the provider call is the only call
    made: nothing is sent upstream. *)
Theorem provider_error_is_returned (m : Method) (server : proxyServiceServer E)
    (ctx : Context) (req : option (Req m)) (w : World E) client err x :
  clientProvider server (GetName (model_spec m req)) (version_of (model_spec m req))
    (external w) = ((client, Some err), x) ->
  result (invoke_ m server ctx req w) = Some (None, Some err) /\
  counter_value (requestsInvalid (final_world (invoke_ m server ctx req w))) "grpc"
    = counter_value (requestsInvalid w) "grpc" + 1 /\
  requestsForwarded (final_world (invoke_ m server ctx req w)) = requestsForwarded w /\
  trace (final_world (invoke_ m server ctx req w)) =
    trace w ++
    [ClientProviderCalled (GetName (model_spec m req)) (version_of (model_spec m req))].
Proof.
  intros Hp. rewrite (invoke_provider_error _ _ _ _ _ _ _ _ Hp). cbn.
  by rewrite counter_value_Add.
Qed.

(** A matching URL with a version, on a proxy made by [NewRestProxy]:
    the whole exchange. *)
Lemma Serve_forward_run (handler : Handler E) (rw : ResponseWriter) (req : Request)
    (w : World E) whole name grp version err outreq x rw' x' :
  FindStringSubmatch (req_URL req) = Some [whole; name; grp; version] ->
  version <> EmptyString ->
  handler req name version (external w) = ((err, outreq), x) ->
  transport outreq rw x = (rw', x') ->
  Serve transport {| RestProxy_RestProxy := {| Director := director handler |} |}
    rw req w =
    Returned rw'
      {| requestsForwarded := counter_Add "rest" 1 (requestsForwarded w);
         requestsInvalid := counter_Add "rest" 1 (requestsInvalid w);
         logged := logged w ++
           [mkLogEntry DebugLevel ("Handling URL: " +:+ req_URL req) None;
            mkLogEntry DebugLevel
              ("Model name: '" +:+ name +:+ "' Version: '" +:+ version +:+ "'") None;
            mkLogEntry DebugLevel ("Handling URL: " +:+ req_URL req) None;
            mkLogEntry DebugLevel
              ("Model name: '" +:+ name +:+ "' Version: '" +:+ version +:+ "'") None];
         trace := trace w ++
           [ReverseProxyServed req; HandlerCalled req name version; RoundTrip outreq];
         external := x' |}.
Proof.
  intros Hfind Hv Hh Ht.
  rewrite (Serve_with_version _ _ _ _ _ _ _ _ Hfind Hv).
  unfold ReverseProxy_ServeHTTP. cbn [RestProxy_RestProxy Director].
  unfold bind at 1. unfold emit at 1. unfold bind at 1.
  erewrite director_run; [|exact Hfind|cbn; exact Hh].
  run. rewrite Ht. cbn. by rewrite <- !app_assoc.
Qed.

(** C3, as the code has it: a proxy made by [NewRestProxy] forwards a
    request exactly when its URL, case-folded, begins with
    [/v1/models/NAME/versions/VERSION], NAME a non-empty word over
    [[a-z0-9]] and VERSION a non-empty word over [[0-9]]; such a request
    goes to the reverse proxy once, and for any other URL nothing at all
    is forwarded. *)
Theorem Serve_forwards_exactly_versioned_model_paths (handler : Handler E)
    (p : RestProxy E) (w0 w0' : World E) (rw : ResponseWriter) (req : Request)
    (w : World E) :
  NewRestProxy handler w0 = Returned p w0' ->
  (model_path_with_version (req_URL req) ->
   exists name version outreq,
     trace (final_world (Serve transport p rw req w)) =
       trace w ++
       [ReverseProxyServed req; HandlerCalled req name version; RoundTrip outreq]) /\
  (~ model_path_with_version (req_URL req) ->
   trace (final_world (Serve transport p rw req w)) = trace w).
Proof.
  intros Hnew. apply NewRestProxy_proxy in Hnew. subst p.
  rewrite <- matches_with_version_shape. split.
  - intros (version & Hv & Hne).
    destruct (version_group_Some _ _ Hv) as (whole & name & grp & Hfind & _).
    destruct (handler req name version (external w)) as [[err outreq] x] eqn:Hh.
    destruct (transport outreq rw x) as [rw' x'] eqn:Ht.
    rewrite (Serve_forward_run _ _ _ _ _ _ _ _ _ _ _ _ _ Hfind Hne Hh Ht).
    cbn. eauto.
  - intros Hno.
    destruct (FindStringSubmatch (req_URL req)) as [m|] eqn:Hfind.
    + destruct (FindStringSubmatch_shape _ _ Hfind)
        as (whole & name & grp & version & -> & _).
      destruct version as [|c version].
      * by rewrite (Serve_without_version _ _ _ _ _ _ _ Hfind).
      * exfalso. apply Hno. exists (String c version).
        unfold version_group. by rewrite Hfind.
    + by rewrite (Serve_unmatched _ _ _ _ Hfind).
Qed.

(** C8: a REST request with a version adds exactly one to
    [forwards_total{rest}], and has done so when the reverse proxy takes
    over, before anything is sent; a gRPC method whose provider succeeds,
    that is, yields a connection (not nil) and no error, adds exactly one
    to [forwards_total{grpc}].  The counter of the other protocol stays
    as it was. *)
Theorem every_forward_is_counted_once :
  (forall (handler : Handler E) (p : RestProxy E) (w0 w0' : World E)
          (rw : ResponseWriter) (req : Request) (w : World E),
      NewRestProxy handler w0 = Returned p w0' ->
      matches_with_version (req_URL req) ->
      (exists w1,
         Serve transport p rw req w =
           ReverseProxy_ServeHTTP transport (RestProxy_RestProxy p) rw req w1 /\
         counter_value (requestsForwarded w1) "rest"
           = counter_value (requestsForwarded w) "rest" + 1 /\
         trace w1 = trace w) /\
      counter_value (requestsForwarded (final_world (Serve transport p rw req w))) "rest"
        = counter_value (requestsForwarded w) "rest" + 1 /\
      counter_value (requestsForwarded (final_world (Serve transport p rw req w))) "grpc"
        = counter_value (requestsForwarded w) "grpc") /\
  (forall (m : Method) (server : proxyServiceServer E) (ctx : Context)
          (req : option (Req m)) (w : World E) (conn : ClientConn) x,
      clientProvider server (GetName (model_spec m req)) (version_of (model_spec m req))
        (external w) = ((Some conn, None), x) ->
      counter_value (requestsForwarded (final_world (invoke_ m server ctx req w))) "grpc"
        = counter_value (requestsForwarded w) "grpc" + 1 /\
      counter_value (requestsForwarded (final_world (invoke_ m server ctx req w))) "rest"
        = counter_value (requestsForwarded w) "rest").
Proof.
  split.
  - intros handler p w0 w0' rw req w Hnew (version & Hv & Hne).
    apply NewRestProxy_proxy in Hnew. subst p.
    destruct (version_group_Some _ _ Hv) as (whole & name & grp & Hfind & _).
    split.
    + eexists. split; [exact (Serve_with_version _ _ _ _ _ _ _ _ Hfind Hne)|].
      cbn. by rewrite counter_value_Add.
    + destruct (handler req name version (external w)) as [[err outreq] x] eqn:Hh.
      destruct (transport outreq rw x) as [rw' x'] eqn:Ht.
      rewrite (Serve_forward_run _ _ _ _ _ _ _ _ _ _ _ _ _ Hfind Hne Hh Ht). cbn.
      by rewrite counter_value_Add, counter_value_Add_ne.
  - intros m server ctx req w conn x Hp.
    destruct (service_ m (Some conn) ctx req x) as [res x'] eqn:Hs.
    rewrite (invoke_forwarded _ _ _ _ _ _ _ _ _ Hp Hs). cbn.
    by rewrite counter_value_Add, counter_value_Add_ne.
Qed.

End ProxyFacts.

(** * The claims on the concrete deployment *)

(** C3 as the specification states it fails.  The model-name segment
    [ResNet] has characters outside [[a-z0-9]], yet the request is
    forwarded; and [/v1/models/resnet], a name over [[a-z0-9]] with the
    optional version left out, is not forwarded but answered 400. *)
Lemma uppercase_model_name_is_forwarded :
  (model_name_segment "/v1/models/ResNet/versions/1" = Some "ResNet" /\
   string_forallb is_lower_alnum "ResNet" = false /\
   trace (final_world
            (Serve demo_transport demo_proxy fresh_response
               (demo_request "/v1/models/ResNet/versions/1") demo_world)) =
     [ReverseProxyServed (demo_request "/v1/models/ResNet/versions/1");
      HandlerCalled (demo_request "/v1/models/ResNet/versions/1") "ResNet" "1";
      RoundTrip (demo_request "/v1/models/ResNet/versions/1")]) /\
  (model_name_segment "/v1/models/resnet" = Some "resnet" /\
   string_forallb is_lower_alnum "resnet" = true /\
   trace (final_world
            (Serve demo_transport demo_proxy fresh_response
               (demo_request "/v1/models/resnet") demo_world)) = [] /\
   rw_Status <$> result
       (Serve demo_transport demo_proxy fresh_response
          (demo_request "/v1/models/resnet") demo_world) = Some (Some 400)).
Proof. repeat split; reflexivity. Qed.

(** C1 on [GET /v1/models/resnet:predict] with a response nothing was
    written to. *)
Lemma Serve_missing_version_is_bad_request_witness :
  matches_without_version "/v1/models/resnet:predict" /\
  exists rw',
    result (Serve demo_transport demo_proxy fresh_response
              (demo_request "/v1/models/resnet:predict") demo_world) = Some rw' /\
    rw_Status rw' = Some 400 /\
    rw_Body rw' = missing_version_json +:+ newline /\
    rw_Header rw' !! "Content-Type" = Some ["application/json"] /\
    counter_value
      (requestsInvalid
         (final_world (Serve demo_transport demo_proxy fresh_response
                         (demo_request "/v1/models/resnet:predict") demo_world))) "rest"
      = counter_value (requestsInvalid demo_world) "rest" + 1 /\
    requestsForwarded
      (final_world (Serve demo_transport demo_proxy fresh_response
                      (demo_request "/v1/models/resnet:predict") demo_world))
      = requestsForwarded demo_world /\
    trace (final_world (Serve demo_transport demo_proxy fresh_response
                          (demo_request "/v1/models/resnet:predict") demo_world))
      = trace demo_world.
Proof.
  split; [reflexivity|].
  apply (Serve_missing_version_is_bad_request demo_transport demo_proxy fresh_response
           (demo_request "/v1/models/resnet:predict") demo_world); reflexivity.
Defined.

(** C2 on a versioned URL with a routing handler that fails. *)
Lemma director_counts_every_request_invalid_witness :
  version_group "/v1/models/resnet/versions/1:predict" = Some "1" /\
  exists req',
    result (director demo_failing_handler
              (demo_request "/v1/models/resnet/versions/1:predict") demo_world)
      = Some req' /\
    counter_value
      (requestsInvalid
         (final_world (director demo_failing_handler
                         (demo_request "/v1/models/resnet/versions/1:predict")
                         demo_world))) "rest"
      = counter_value (requestsInvalid demo_world) "rest" + 1 /\
    requestsForwarded
      (final_world (director demo_failing_handler
                      (demo_request "/v1/models/resnet/versions/1:predict") demo_world))
      = requestsForwarded demo_world.
Proof.
  split; [reflexivity|].
  apply (director_counts_every_request_invalid demo_failing_handler
           (demo_request "/v1/models/resnet/versions/1:predict") demo_world "1").
  reflexivity.
Defined.

(** C3 on a URL in mixed case, which is forwarded, and on a URL whose
    name breaks off at a hyphen, which is not. *)
Lemma Serve_forwards_exactly_versioned_model_paths_witness :
  NewRestProxy demo_handler demo_world =
    Returned demo_proxy (final_world (NewRestProxy demo_handler demo_world)) /\
  model_path_with_version "/V1/Models/ResNet/versions/12:predict" /\
  (exists name version outreq,
     trace (final_world
              (Serve demo_transport demo_proxy fresh_response
                 (demo_request "/V1/Models/ResNet/versions/12:predict") demo_world)) =
       trace demo_world ++
       [ReverseProxyServed (demo_request "/V1/Models/ResNet/versions/12:predict");
        HandlerCalled (demo_request "/V1/Models/ResNet/versions/12:predict")
          name version;
        RoundTrip outreq]) /\
  ~ model_path_with_version "/v1/models/res-net/versions/12" /\
  trace (final_world
           (Serve demo_transport demo_proxy fresh_response
              (demo_request "/v1/models/res-net/versions/12") demo_world)) =
    trace demo_world.
Proof.
  assert (NewRestProxy demo_handler demo_world =
            Returned demo_proxy (final_world (NewRestProxy demo_handler demo_world)))
    as Hnew by reflexivity.
  assert (model_path_with_version "/V1/Models/ResNet/versions/12:predict") as Hyes.
  { exists "resnet", "12", ":predict". repeat split; (reflexivity || discriminate). }
  assert (~ model_path_with_version "/v1/models/res-net/versions/12") as Hno.
  { intros H. apply matches_with_version_shape in H as (v & Hv & Hne).
    apply Hne. vm_compute in Hv. congruence. }
  split; [exact Hnew|]. split; [exact Hyes|]. split; [|split; [exact Hno|]].
  - exact (proj1 (Serve_forwards_exactly_versioned_model_paths demo_transport
                    demo_handler demo_proxy demo_world _ fresh_response
                    (demo_request "/V1/Models/ResNet/versions/12:predict") demo_world
                    Hnew) Hyes).
  - exact (proj2 (Serve_forwards_exactly_versioned_model_paths demo_transport
                    demo_handler demo_proxy demo_world _ fresh_response
                    (demo_request "/v1/models/res-net/versions/12") demo_world
                    Hnew) Hno).
Defined.

(** C6 on a [Predict] for model [resnet], version 42. *)
Lemma clientProvider_gets_name_and_decimal_version_witness :
  (int64_min <= 42 <= int64_max)%Z /\
  (exists rest,
     trace (final_world
              (demo_invoke MPredict demo_server demo_context demo_PredictRequest
                 demo_world)) =
       trace demo_world ++ ClientProviderCalled "resnet" "42" :: rest /\
     (rest = [] \/ exists client, rest = [UpstreamCalled MPredict client])) /\
  decimal_value "42" = Some 42%Z /\
  (Some (mkInt64Value 42) = None \/ 42%Z = 0%Z -> "42" = "0").
Proof.
  assert (int64_min <= 42 <= int64_max)%Z as Hrange.
  { unfold int64_min, int64_max. lia. }
  split; [exact Hrange|].
  exact (clientProvider_gets_name_and_decimal_version demo_Predict demo_Classify
           demo_Regress demo_GetModelMetadata demo_SessionRun MPredict demo_server
           demo_context demo_PredictRequest demo_world Hrange).
Defined.

(** C7 on a [Predict] that the upstream answers. *)
Lemma upstream_result_is_passed_through_witness :
  clientProvider demo_server "resnet" "42" tt = ((Some demo_conn, None), tt) /\
  demo_Predict (Some demo_conn) demo_context demo_PredictRequest tt =
    ((Some {| PredictResponse_Outputs := "scores" |}, None), tt) /\
  result (demo_invoke MPredict demo_server demo_context demo_PredictRequest demo_world)
    = Some (Some {| PredictResponse_Outputs := "scores" |}, None).
Proof.
  split; [reflexivity|]. split; [reflexivity|].
  exact (upstream_result_is_passed_through demo_Predict demo_Classify demo_Regress
           demo_GetModelMetadata demo_SessionRun MPredict demo_server demo_context
           demo_PredictRequest demo_world (Some demo_conn) tt
           (Some {| PredictResponse_Outputs := "scores" |}, None) tt
           eq_refl eq_refl).
Defined.

(** C8 on one REST request and one [Predict], each starting from zeroed
    counters. *)
Lemma every_forward_is_counted_once_witness :
  (NewRestProxy demo_handler demo_world =
     Returned demo_proxy (final_world (NewRestProxy demo_handler demo_world)) /\
   matches_with_version "/v1/models/resnet/versions/1:predict" /\
   counter_value
     (requestsForwarded
        (final_world (Serve demo_transport demo_proxy fresh_response
                        (demo_request "/v1/models/resnet/versions/1:predict")
                        demo_world))) "rest" = 1) /\
  (clientProvider demo_server "resnet" "42" tt = ((Some demo_conn, None), tt) /\
   counter_value
     (requestsForwarded
        (final_world (demo_invoke MPredict demo_server demo_context demo_PredictRequest
                        demo_world))) "grpc" = 1).
Proof.
  assert (NewRestProxy demo_handler demo_world =
            Returned demo_proxy (final_world (NewRestProxy demo_handler demo_world)))
    as Hnew by reflexivity.
  assert (matches_with_version "/v1/models/resnet/versions/1:predict") as Hver.
  { exists "1". split; [reflexivity | discriminate]. }
  pose proof (every_forward_is_counted_once demo_transport demo_Predict demo_Classify
                demo_Regress demo_GetModelMetadata demo_SessionRun) as [Hrest Hgrpc].
  split.
  - split; [exact Hnew|]. split; [exact Hver|].
    exact (proj1 (proj2 (Hrest demo_handler demo_proxy demo_world _ fresh_response
                           (demo_request "/v1/models/resnet/versions/1:predict")
                           demo_world Hnew Hver))).
  - split; [reflexivity|].
    exact (proj1 (Hgrpc MPredict demo_server demo_context demo_PredictRequest
                    demo_world demo_conn tt eq_refl)).
Defined.

(** C10 on a [Predict] for which no node is available. *)
Lemma provider_error_is_returned_witness :
  clientProvider demo_failing_server "resnet" "42" tt = ((None, Some demo_unavailable), tt) /\
  result (demo_invoke MPredict demo_failing_server demo_context demo_PredictRequest
            demo_world) = Some (None, Some demo_unavailable) /\
  counter_value
    (requestsInvalid
       (final_world (demo_invoke MPredict demo_failing_server demo_context
                       demo_PredictRequest demo_world))) "grpc" = 1 /\
  requestsForwarded
    (final_world (demo_invoke MPredict demo_failing_server demo_context
                    demo_PredictRequest demo_world)) = ∅ /\
  trace (final_world (demo_invoke MPredict demo_failing_server demo_context
                        demo_PredictRequest demo_world)) =
    [ClientProviderCalled "resnet" "42"].
Proof.
  split; [reflexivity|].
  exact (provider_error_is_returned demo_Predict demo_Classify demo_Regress
           demo_GetModelMetadata demo_SessionRun MPredict demo_failing_server
           demo_context demo_PredictRequest demo_world None demo_unavailable tt eq_refl).
Defined.

(** * Further properties of the package *)

(** ** The pattern, read plainly *)

Lemma is_empty_true_eq (s : string) : is_empty s = true -> s = EmptyString.
Proof. by destruct s. Qed.

Lemma strip_prefix_app (lit u : string) : strip_prefix lit (lit +:+ u) = Some u.
Proof.
  induction lit as [|p lit IH]; [done|].
  rewrite append_cons. cbn. by rewrite Ascii.eqb_refl.
Qed.

Lemma strip_prefix_Some (lit f u : string) :
  strip_prefix lit f = Some u -> f = lit +:+ u.
Proof.
  revert f. induction lit as [|p lit IH]; intros f H.
  - cbn in H. by injection H as ->.
  - destruct f as [|b f]; [done|]. cbn in H.
    destruct (Ascii.eqb p b) eqn:Hpb; [|done].
    apply Ascii.eqb_eq in Hpb. subst b. by rewrite append_cons, (IH _ H).
Qed.

Lemma match_literal_strip (lit s : string) :
  strip_prefix lit (fold_case s) =
    match match_literal lit s with
    | Some (_, t) => Some (fold_case t)
    | None => None
    end.
Proof.
  destruct (match_literal lit s) as [[m t]|] eqn:Hm.
  - rewrite (match_literal_fold _ _ _ _ Hm). apply strip_prefix_app.
  - destruct (strip_prefix lit (fold_case s)) as [u|] eqn:Hs; [|done].
    apply strip_prefix_Some, fold_match_literal in Hs as (m & t & Hm' & _).
    congruence.
Qed.

Lemma scan_alnum_span (s : string) :
  exists n,
    span is_lower_alnum (fold_case s) = (n, fold_case (scan_alnum s).2) /\
    is_empty n = is_empty (scan_alnum s).1.
Proof.
  remember (String.length s) as k eqn:Hk. revert s Hk.
  induction k as [k IH] using lt_wf_ind. intros s ->.
  rewrite scan_alnum_step, (fold_case_step s).
  destruct (read_folded s) as [[[c raw] r]|] eqn:Hread.
  - cbn [span]. destruct (is_lower_alnum c) eqn:Hc.
    + destruct (IH _ (read_folded_shorter _ _ _ _ Hread) r eq_refl) as (n & Hn & _).
      rewrite Hn. exists (String c n). split; [done|]. cbn [snd fst is_empty].
      destruct (read_folded_split _ _ _ _ Hread) as [_ Hraw]. by destruct raw.
    + exists EmptyString. cbn [snd fst]. by rewrite (fold_case_step s), Hread.
  - by exists EmptyString.
Qed.

Lemma scan_digits_span (s : string) :
  span is_digit (fold_case s) = ((scan_digits s).1, fold_case (scan_digits s).2).
Proof.
  induction s as [|c r IH]; [done|].
  cbn [scan_digits]. destruct (is_digit c) eqn:Hc.
  - rewrite fold_case_step, (read_folded_of_digit _ _ Hc). cbn [span].
    rewrite Hc, IH. by destruct (scan_digits r).
  - cbn [fst snd]. rewrite fold_case_step.
    destruct (read_folded (String c r)) as [[[c' raw] r']|] eqn:Hread; [|done].
    cbn [span]. destruct (is_digit c') eqn:Hc'; [|done].
    pose proof (read_folded_digit _ _ _ _ Hread Hc') as Heq.
    injection Heq as -> _. congruence.
Qed.

(** X1: whether a URL matches, and the version that is captured, depend
    only on the case-folded URL: they are what a plain, case-sensitive
    reading of the pattern finds in the folded URL.  Two URLs that differ
    in letter case only are therefore treated alike. *)
Theorem version_group_reads_folded_URL (url : string) :
  version_group url = folded_version (fold_case url) /\
  (forall url', fold_case url' = fold_case url -> version_group url' = version_group url).
Proof.
  assert (forall u, version_group u = folded_version (fold_case u)) as H.
  { intros u. unfold version_group, folded_version, FindStringSubmatch.
    rewrite (match_literal_strip "/v1/models/" u).
    destruct (match_literal "/v1/models/" u) as [[lit r]|]; [|done].
    destruct (scan_alnum_span r) as (n & Hn & Hempty).
    rewrite Hn, Hempty. destruct (scan_alnum r) as [name r']. cbn [fst snd].
    destruct (is_empty name); [done|].
    unfold match_version_group. rewrite (match_literal_strip "/versions/" r').
    destruct (match_literal "/versions/" r') as [[lit2 r2]|]; [|done].
    rewrite scan_digits_span. destruct (scan_digits r2) as [v t]. cbn [fst snd].
    destruct (is_empty v) eqn:Hv; [|done].
    apply is_empty_true_eq in Hv. by subst v. }
  split; [apply H|]. intros url' Heq. by rewrite !H, Heq.
Qed.

(** ** The parts of a match *)

Lemma append_nil_r (s : string) : s +:+ EmptyString = s.
Proof. induction s as [|c s IH]; [done|]. by rewrite append_cons, IH. Qed.

Lemma to_lower_ascii (c : ascii) :
  nat_of_ascii (to_lower c) < 128 -> nat_of_ascii c < 128.
Proof.
  destruct (is_upper c) eqn:Hup.
  - intros _. apply byte_in_true in Hup. lia.
  - by rewrite (to_lower_id _ Hup).
Qed.

Lemma is_lower_alnum_ascii (c : ascii) : is_lower_alnum c = true -> nat_of_ascii c < 128.
Proof.
  unfold is_lower_alnum, is_lower, is_digit.
  intros [H|H]%orb_true_iff; apply byte_in_true in H; lia.
Qed.

Lemma read_folded_ascii (c : ascii) (x : string) :
  nat_of_ascii c < 128 ->
  read_folded (String c x) = Some (to_lower c, String c EmptyString, x).
Proof.
  intros Hc.
  assert ((nat_of_ascii c =? 197) = false) as H1 by (apply Nat.eqb_neq; lia).
  assert ((nat_of_ascii c =? 226) = false) as H2 by (apply Nat.eqb_neq; lia).
  unfold read_folded. rewrite H1, H2. cbn.
  by destruct x as [|c2 [|c3 r3]].
Qed.

Lemma read_folded_None (s : string) : read_folded s = None -> s = EmptyString.
Proof.
  unfold read_folded. destruct s as [|c [|c2 [|c3 r3]]]; [done|done| |].
  - by destruct ((nat_of_ascii c =? 197) && (nat_of_ascii c2 =? 191)).
  - destruct ((nat_of_ascii c =? 197) && (nat_of_ascii c2 =? 191)); [done|].
    by destruct ((nat_of_ascii c =? 226) && (nat_of_ascii c2 =? 132)
                 && (nat_of_ascii c3 =? 170)).
Qed.

(** A rune that folds into ASCII is read the same whatever follows it. *)
Lemma read_folded_app (s : string) c raw r (x : string) :
  read_folded s = Some (c, raw, r) -> nat_of_ascii c < 128 ->
  read_folded (raw +:+ x) = Some (c, raw, x).
Proof.
  unfold read_folded at 1.
  destruct s as [|c0 [|c2 [|c3 r3]]]; [done| | |].
  - intros [= <- <- <-] Hc. apply to_lower_ascii in Hc.
    rewrite append_cons. by apply read_folded_ascii.
  - destruct ((nat_of_ascii c0 =? 197) && (nat_of_ascii c2 =? 191)) eqn:H1.
    + intros [= <- <- <-] _. rewrite !append_cons. unfold read_folded.
      rewrite H1. by destruct x.
    + intros [= <- <- <-] Hc. apply to_lower_ascii in Hc.
      rewrite append_cons. by apply read_folded_ascii.
  - destruct ((nat_of_ascii c0 =? 197) && (nat_of_ascii c2 =? 191)) eqn:H1.
    + intros [= <- <- <-] _. rewrite !append_cons. unfold read_folded.
      rewrite H1. by destruct x.
    + destruct ((nat_of_ascii c0 =? 226) && (nat_of_ascii c2 =? 132)
                && (nat_of_ascii c3 =? 170)) eqn:H2.
      * intros [= <- <- <-] _. rewrite !append_cons. unfold read_folded.
        by rewrite H1, H2.
      * intros [= <- <- <-] Hc. apply to_lower_ascii in Hc.
        rewrite append_cons. by apply read_folded_ascii.
Qed.

Lemma match_literal_parts (lit s : string) m t :
  string_forallb is_ascii lit = true ->
  match_literal lit s = Some (m, t) ->
  s = m +:+ t /\ fold_case m = lit.
Proof.
  revert s m t. induction lit as [|p lit IH]; intros s m t Hlit H.
  - cbn in H. by injection H as <- <-.
  - cbn [match_literal] in H. cbn [string_forallb] in Hlit.
    apply andb_true_iff in Hlit as [Hp Hlit]. unfold is_ascii in Hp.
    destruct (read_folded s) as [[[c raw] r]|] eqn:Hread; [|done].
    destruct (Ascii.eqb c p) eqn:Hc; [|done].
    apply Ascii.eqb_eq in Hc. subst c.
    destruct (match_literal lit r) as [[m' t']|] eqn:Hm; [|done].
    injection H as <- <-. destruct (IH _ _ _ Hlit Hm) as [-> Hfold].
    destruct (read_folded_split _ _ _ _ Hread) as [-> _].
    split; [by rewrite append_assoc|].
    apply Nat.ltb_lt in Hp.
    by rewrite fold_case_step, (read_folded_app _ _ _ _ m' Hread Hp), Hfold.
Qed.

Lemma scan_alnum_parts (s : string) m t :
  scan_alnum s = (m, t) ->
  s = m +:+ t /\
  string_forallb is_lower_alnum (fold_case m) = true /\
  head_is is_lower_alnum (fold_case t) = false.
Proof.
  remember (String.length s) as k eqn:Hk. revert s m t Hk.
  induction k as [k IH] using lt_wf_ind. intros s m t -> H.
  rewrite scan_alnum_step in H.
  destruct (read_folded s) as [[[c raw] r]|] eqn:Hread.
  - destruct (is_lower_alnum c) eqn:Hc.
    + injection H as <- <-.
      destruct (scan_alnum r) as [m' t'] eqn:Hscan. cbn [fst snd].
      destruct (IH _ (read_folded_shorter _ _ _ _ Hread) r m' t' eq_refl Hscan)
        as (-> & Hall & Hhead).
      destruct (read_folded_split _ _ _ _ Hread) as [-> _].
      split; [by rewrite append_assoc|]. split; [|done].
      rewrite fold_case_step,
        (read_folded_app _ _ _ _ m' Hread (is_lower_alnum_ascii _ Hc)).
      cbn. by rewrite Hc, Hall.
    + injection H as <- <-. split; [done|]. split; [done|].
      by rewrite fold_case_step, Hread.
  - injection H as <- <-. by rewrite (read_folded_None _ Hread).
Qed.

Lemma scan_digits_parts (s : string) m t :
  scan_digits s = (m, t) ->
  s = m +:+ t /\ string_forallb is_digit m = true /\ head_is is_digit t = false.
Proof.
  revert m t. induction s as [|c r IH]; intros m t H.
  - by injection H as <- <-.
  - cbn [scan_digits] in H. destruct (is_digit c) eqn:Hc.
    + destruct (scan_digits r) as [m' t'] eqn:Hscan. injection H as <- <-.
      destruct (IH _ _ eq_refl) as (-> & Hall & Hhead).
      cbn. by rewrite Hc, Hall.
    + by injection H as <- <-.
Qed.

(** The key of a match that carries a version, located in the URL. *)
Lemma versioned_match_key (url whole name grp version : string) :
  FindStringSubmatch url = Some [whole; name; grp; version] ->
  version <> EmptyString ->
  name <> EmptyString /\
  string_forallb is_lower_alnum (fold_case name) = true /\
  string_forallb is_digit version = true /\
  exists pre mid rest,
    url = pre +:+ name +:+ mid +:+ version +:+ rest /\
    fold_case pre = "/v1/models/" /\ fold_case mid = "/versions/".
Proof.
  unfold FindStringSubmatch, match_version_group. intros H Hver.
  destruct (match_literal "/v1/models/" url) as [[lit r]|] eqn:Hlit; [|done].
  destruct (scan_alnum r) as [name' r'] eqn:Hname.
  destruct (is_empty name') eqn:Hempty; [done|].
  apply is_empty_false in Hempty.
  destruct (match_literal_parts "/v1/models/" _ _ _ eq_refl Hlit) as [-> Hlitf].
  destruct (scan_alnum_parts _ _ _ Hname) as (-> & Hall & _).
  destruct (match_literal "/versions/" r') as [[lit2 r2]|] eqn:Hlit2;
    [|by injection H as <- <- <- <-].
  destruct (scan_digits r2) as [v t] eqn:Hv.
  destruct (scan_digits_parts _ _ _ Hv) as (-> & Hvall & _).
  destruct (match_literal_parts "/versions/" _ _ _ eq_refl Hlit2) as [-> Hlit2f].
  destruct (is_empty v); injection H as <- <- <- <-; [done|].
  repeat (split; [done|]). by exists lit, lit2, t.
Qed.

(** X2: the submatches of a match are pieces of the URL as it was
    written, in order.  The whole match is a prefix of the URL and is the
    literal, the name and the version group one after the other; the
    literal is [/v1/models/] up to letter case; the name is not empty and
    folds to a word over [[a-z0-9]]; the version is a word over [[0-9]].
    Both captures are the longest possible: no letter or digit follows
    the name, and no digit follows a version.  The group is either absent
    (then the version is empty too) or [/versions/], up to letter case,
    followed by a non-empty version. *)
Theorem FindStringSubmatch_parts (url whole name grp version : string) :
  FindStringSubmatch url = Some [whole; name; grp; version] ->
  exists lit rest,
    url = whole +:+ rest /\
    whole = lit +:+ name +:+ grp /\
    fold_case lit = "/v1/models/" /\
    name <> EmptyString /\
    string_forallb is_lower_alnum (fold_case name) = true /\
    string_forallb is_digit version = true /\
    head_is is_lower_alnum (fold_case (grp +:+ rest)) = false /\
    ((grp = EmptyString /\ version = EmptyString) \/
     (version <> EmptyString /\ head_is is_digit rest = false /\
      exists lit2, grp = lit2 +:+ version /\ fold_case lit2 = "/versions/")).
Proof.
  unfold FindStringSubmatch. intros H.
  destruct (match_literal "/v1/models/" url) as [[lit r]|] eqn:Hlit; [|done].
  destruct (scan_alnum r) as [name' r'] eqn:Hname.
  destruct (is_empty name') eqn:Hempty; [done|].
  apply is_empty_false in Hempty.
  destruct (match_literal_parts "/v1/models/" _ _ _ eq_refl Hlit) as [-> Hlitf].
  destruct (scan_alnum_parts _ _ _ Hname) as (-> & Hall & Hhead).
  unfold match_version_group in H.
  destruct (match_literal "/versions/" r') as [[lit2 r2]|] eqn:Hlit2.
  - destruct (scan_digits r2) as [v t] eqn:Hv.
    destruct (scan_digits_parts _ _ _ Hv) as (-> & Hvall & Hvhead).
    destruct (match_literal_parts "/versions/" _ _ _ eq_refl Hlit2) as [Hr' Hlit2f].
    destruct (is_empty v) eqn:Hvempty.
    + injection H as <- <- <- <-. exists lit, r'.
      rewrite append_nil_r, append_assoc. repeat (split; [done|]). by left.
    + injection H as <- <- <- <-. exists lit, t. apply is_empty_false in Hvempty.
      subst r'. rewrite !append_assoc. repeat (split; [done|]). right. eauto.
  - injection H as <- <- <- <-. exists lit, r'.
    rewrite append_nil_r, append_assoc. repeat (split; [done|]). by left.
Qed.

(** ** Building a URL and reading it back *)

Lemma is_alnum_folds (c : ascii) :
  is_alnum c = true -> nat_of_ascii c < 128 /\ is_lower_alnum (to_lower c) = true.
Proof.
  unfold is_alnum, is_lower_alnum. intros H.
  destruct (is_upper c) eqn:Hup.
  - pose proof (to_lower_upper _ Hup) as Hn. apply byte_in_true in Hup.
    split; [lia|]. apply orb_true_iff. left. apply byte_in_true. lia.
  - rewrite (to_lower_id _ Hup). rewrite orb_false_r in H. split; [|done].
    apply orb_true_iff in H as [H|H]; apply byte_in_true in H; lia.
Qed.

Lemma match_literal_exact (lit x : string) :
  string_forallb (fun c => is_ascii c && negb (is_upper c)) lit = true ->
  match_literal lit (lit +:+ x) = Some (lit, x).
Proof.
  induction lit as [|p lit IH]; intros Hlit; [done|].
  cbn [string_forallb] in Hlit.
  apply andb_true_iff in Hlit as [[Hp Hup%negb_true_iff]%andb_true_iff Hlit].
  unfold is_ascii in Hp. apply Nat.ltb_lt in Hp.
  rewrite append_cons. cbn [match_literal].
  rewrite (read_folded_ascii _ _ Hp), (to_lower_id _ Hup), Ascii.eqb_refl.
  by rewrite (IH Hlit).
Qed.

Lemma scan_alnum_exact (name : string) (c0 : ascii) (y : string) :
  string_forallb is_alnum name = true ->
  nat_of_ascii c0 < 128 -> is_lower_alnum (to_lower c0) = false ->
  scan_alnum (name +:+ String c0 y) = (name, String c0 y).
Proof.
  intros Hall Hc0 Hnot. induction name as [|a name IH].
  - change (EmptyString +:+ String c0 y) with (String c0 y).
    by rewrite scan_alnum_step, (read_folded_ascii _ _ Hc0), Hnot.
  - cbn [string_forallb] in Hall. apply andb_true_iff in Hall as [Ha Hall].
    destruct (is_alnum_folds _ Ha) as [Hascii Hfold].
    rewrite append_cons, scan_alnum_step, (read_folded_ascii _ _ Hascii), Hfold.
    by rewrite (IH Hall).
Qed.

Lemma scan_digits_exact (version suffix : string) :
  string_forallb is_digit version = true ->
  head_is is_digit suffix = false ->
  scan_digits (version +:+ suffix) = (version, suffix).
Proof.
  intros Hall Hhead. induction version as [|d version IH].
  - change (EmptyString +:+ suffix) with suffix.
    destruct suffix as [|c r]; [done|]. cbn in *. by rewrite Hhead.
  - cbn [string_forallb] in Hall. apply andb_true_iff in Hall as [Hd Hall].
    rewrite append_cons. cbn [scan_digits]. by rewrite Hd, (IH Hall).
Qed.

Lemma match_built_URL (name version suffix : string) :
  name <> EmptyString -> string_forallb is_alnum name = true ->
  version <> EmptyString -> string_forallb is_digit version = true ->
  head_is is_digit suffix = false ->
  FindStringSubmatch ("/v1/models/" +:+ name +:+ "/versions/" +:+ version +:+ suffix)
    = Some ["/v1/models/" +:+ name +:+ "/versions/" +:+ version;
            name; "/versions/" +:+ version; version].
Proof.
  intros Hname Hall Hver Hvall Hhead. unfold FindStringSubmatch.
  rewrite (match_literal_exact "/v1/models/" _ eq_refl).
  change ("/versions/" +:+ version +:+ suffix)
    with (String "/" ("versions/" +:+ version +:+ suffix)).
  rewrite (scan_alnum_exact name "/" _ Hall); [|by apply Nat.ltb_lt|done].
  apply is_empty_false in Hname. rewrite Hname.
  change (String "/" ("versions/" +:+ version +:+ suffix))
    with ("/versions/" +:+ version +:+ suffix).
  unfold match_version_group.
  rewrite (match_literal_exact "/versions/" _ eq_refl).
  rewrite (scan_digits_exact _ _ Hvall Hhead).
  apply is_empty_false in Hver. by rewrite Hver.
Qed.

(** X3: a URL put together from a name of ASCII letters and digits and a
    version of digits is read back into exactly that name and that
    version, whatever follows the version (as long as it is not one more
    digit, which would belong to the version); such a URL is one that
    carries a version. *)
Theorem FindStringSubmatch_of_built_URL (name version suffix : string) :
  name <> EmptyString -> string_forallb is_alnum name = true ->
  version <> EmptyString -> string_forallb is_digit version = true ->
  head_is is_digit suffix = false ->
  FindStringSubmatch ("/v1/models/" +:+ name +:+ "/versions/" +:+ version +:+ suffix)
    = Some ["/v1/models/" +:+ name +:+ "/versions/" +:+ version;
            name; "/versions/" +:+ version; version] /\
  matches_with_version
    ("/v1/models/" +:+ name +:+ "/versions/" +:+ version +:+ suffix).
Proof.
  intros Hname Hall Hver Hvall Hhead.
  pose proof (match_built_URL _ _ _ Hname Hall Hver Hvall Hhead) as Hfind.
  split; [exact Hfind|].
  exists version. unfold version_group. by rewrite Hfind.
Qed.

(** ** The version numeral *)

Lemma formatBits_digits (n : nat) (u : Z) (acc : string) :
  (0 <= u)%Z -> string_forallb is_digit acc = true ->
  string_forallb is_digit (formatBits n u acc) = true.
Proof.
  revert u acc. induction n as [|n IH]; intros u acc Hu Hacc; [done|].
  rewrite formatBits_S. destruct (u <? 10)%Z eqn:Hlt.
  - apply Z.ltb_lt in Hlt. cbn. by rewrite is_digit_digit_char, Hacc by lia.
  - apply IH; [apply Z.div_pos; lia|].
    cbn. rewrite is_digit_digit_char, Hacc; [done|]. apply Z.mod_pos_bound. lia.
Qed.

Lemma formatBits_leading (n : nat) (u : Z) :
  (0 < u < 10 ^ Z.of_nat (S n))%Z ->
  exists d r,
    formatBits (S n) u EmptyString = String (digit_char d) r /\ (1 <= d <= 9)%Z.
Proof.
  revert u. induction n as [|n IH]; intros u Hu.
  - rewrite formatBits_S. destruct (u <? 10)%Z eqn:Hlt.
    + apply Z.ltb_lt in Hlt. exists u, EmptyString. split; [done|lia].
    + apply Z.ltb_ge in Hlt. cbn in Hu. lia.
  - rewrite formatBits_S. destruct (u <? 10)%Z eqn:Hlt.
    + apply Z.ltb_lt in Hlt. exists u, EmptyString. split; [done|lia].
    + apply Z.ltb_ge in Hlt. rewrite formatBits_acc.
      destruct (IH (u / 10)%Z) as (d & r & Heq & Hd).
      { rewrite (Nat2Z.inj_succ (S n)), Z.pow_succ_r in Hu by lia.
        split; [apply Z.div_str_pos; lia|].
        apply Z.div_lt_upper_bound; lia. }
      rewrite Heq, append_cons. eauto.
Qed.

Lemma FormatInt_nonneg_digits (i : Z) :
  (0 <= i)%Z ->
  FormatInt i <> EmptyString /\ string_forallb is_digit (FormatInt i) = true.
Proof.
  intros Hpos. unfold FormatInt.
  assert ((i <? 0)%Z = false) as -> by (apply Z.ltb_ge; lia). split.
  - destruct (formatBits_head 19 i Hpos) as (c & r & -> & _). done.
  - by apply formatBits_digits.
Qed.

(** X4: on 64-bit versions the numeral determines the version: two
    different versions are never handed to the provider under the same
    string. *)
Theorem FormatInt_injective (i j : Z) :
  (int64_min <= i <= int64_max)%Z -> (int64_min <= j <= int64_max)%Z ->
  FormatInt i = FormatInt j -> i = j.
Proof.
  intros Hi Hj Heq.
  pose proof (decimal_value_FormatInt i Hi) as Hvi.
  rewrite Heq, (decimal_value_FormatInt j Hj) in Hvi. congruence.
Qed.

(** X5: the numeral of a version that is not negative is a non-empty
    word over [[0-9]] without a leading zero (only zero itself starts
    with [0]); the numeral of a negative version starts with the minus
    sign, so it is no such word. *)
Theorem FormatInt_shape (i : Z) :
  (int64_min <= i <= int64_max)%Z ->
  ((0 <= i)%Z ->
   FormatInt i <> EmptyString /\
   string_forallb is_digit (FormatInt i) = true /\
   (head_is (Ascii.eqb "0") (FormatInt i) = true -> i = 0%Z)) /\
  ((i < 0)%Z ->
   head_is (Ascii.eqb "-") (FormatInt i) = true /\
   head_is is_digit (FormatInt i) = false).
Proof.
  unfold int64_min, int64_max. intros Hi. split.
  - intros Hpos. destruct (FormatInt_nonneg_digits i Hpos) as [Hnonempty Hdigits].
    split; [done|]. split; [done|]. unfold FormatInt.
    assert ((i <? 0)%Z = false) as -> by (apply Z.ltb_ge; lia).
    { intros Hzero. destruct (Z.eq_dec i 0%Z) as [|Hne]; [done|]. exfalso.
      destruct (formatBits_leading 19 i) as (d & r & Heq & Hd); [cbn; lia|].
      rewrite Heq in Hzero. cbn [head_is] in Hzero. apply Ascii.eqb_eq in Hzero.
      apply (f_equal nat_of_ascii) in Hzero.
      rewrite nat_of_digit_char in Hzero by lia.
      change (nat_of_ascii "0") with 48 in Hzero. lia. }
  - intros Hneg. unfold FormatInt.
    by assert ((i <? 0)%Z = true) as -> by (apply Z.ltb_lt; lia).
Qed.

(** ** Counter vectors, once more *)

Lemma counter_value_Add_zero (label other : string) (vec : gmap string nat) :
  counter_value (counter_Add label 0 vec) other = counter_value vec other.
Proof.
  destruct (decide (label = other)) as [<-|Hne].
  - rewrite counter_value_Add. lia.
  - by apply counter_value_Add_ne.
Qed.

Lemma counter_Add_zero_twice (label : string) (vec : gmap string nat) :
  counter_Add label 0 (counter_Add label 0 vec) = counter_Add label 0 vec.
Proof.
  unfold counter_Add at 1. rewrite counter_value_Add.
  unfold counter_Add. rewrite insert_insert_eq. f_equal. lia.
Qed.

Lemma counter_Add_zero_commute (l1 l2 : string) (vec : gmap string nat) :
  l1 <> l2 ->
  counter_Add l1 0 (counter_Add l2 0 vec) = counter_Add l2 0 (counter_Add l1 0 vec).
Proof.
  intros Hne. unfold counter_Add at 1 3.
  rewrite !counter_value_Add_zero. unfold counter_Add.
  by apply insert_insert_ne.
Qed.

Section ProxyMore.

Context {E : Type}.
Variable transport : Request -> ResponseWriter -> E -> ResponseWriter * E.
Variable service_Predict : Rpc E PredictRequest PredictResponse.
Variable service_Classify : Rpc E ClassificationRequest ClassificationResponse.
Variable service_Regress : Rpc E RegressionRequest RegressionResponse.
Variable service_GetModelMetadata :
  Rpc E GetModelMetadataRequest GetModelMetadataResponse.
Variable service_SessionRun : Rpc E SessionRunRequest SessionRunResponse.

Local Abbreviation invoke_ :=
  (invoke service_Predict service_Classify service_Regress
     service_GetModelMetadata service_SessionRun).
Local Abbreviation service_ :=
  (service service_Predict service_Classify service_Regress
     service_GetModelMetadata service_SessionRun).

(** *** The constructors *)

(** X6: [NewRestProxy] returns a proxy whose director is the closure
    over the given handler, and touches the state only to register the
    series [rest] in both counter vectors: the series is present
    afterwards, no counter value changes, no other series appears, and
    doing it again changes nothing more. *)
Theorem NewRestProxy_registers_rest_series (handler handler' : Handler E) (w : World E) :
  result (NewRestProxy handler w) =
    Some {| RestProxy_RestProxy := {| Director := director handler |} |} /\
  is_Some (requestsForwarded (final_world (NewRestProxy handler w)) !! "rest") /\
  is_Some (requestsInvalid (final_world (NewRestProxy handler w)) !! "rest") /\
  (forall label,
     counter_value (requestsForwarded (final_world (NewRestProxy handler w))) label
       = counter_value (requestsForwarded w) label /\
     counter_value (requestsInvalid (final_world (NewRestProxy handler w))) label
       = counter_value (requestsInvalid w) label) /\
  (forall label, label <> "rest" ->
     requestsForwarded (final_world (NewRestProxy handler w)) !! label
       = requestsForwarded w !! label /\
     requestsInvalid (final_world (NewRestProxy handler w)) !! label
       = requestsInvalid w !! label) /\
  logged (final_world (NewRestProxy handler w)) = logged w /\
  trace (final_world (NewRestProxy handler w)) = trace w /\
  external (final_world (NewRestProxy handler w)) = external w /\
  final_world (NewRestProxy handler' (final_world (NewRestProxy handler w)))
    = final_world (NewRestProxy handler w).
Proof.
  unfold NewRestProxy, requestsForwarded_Add, requestsInvalid_Add, bind, ret.
  cbn [result final_world requestsForwarded requestsInvalid logged trace external].
  split; [done|].
  split; [unfold counter_Add; rewrite lookup_insert_eq; eauto|].
  split; [unfold counter_Add; rewrite lookup_insert_eq; eauto|].
  split; [intros label; by rewrite !counter_value_Add_zero|].
  split.
  { intros label Hne. unfold counter_Add. by rewrite !lookup_insert_ne. }
  repeat (split; [done|]). by rewrite !counter_Add_zero_twice.
Qed.

(** X7: [NewGrpcProxy] returns a proxy that has no server and no
    listener yet and whose service implementation calls the given
    provider; it touches the state only to register the series [grpc] in
    both counter vectors, without changing a counter value.  Making the
    REST proxy first or the gRPC proxy first leaves the same state. *)
Theorem NewGrpcProxy_registers_grpc_series (provider : ClientProvider E)
    (handler : Handler E) (w : World E) :
  result (NewGrpcProxy provider w) =
    Some {| GrpcProxy_GrpcProxy := None;
            serverImpl := Some {| clientProvider := provider |};
            listener := None |} /\
  is_Some (requestsForwarded (final_world (NewGrpcProxy provider w)) !! "grpc") /\
  is_Some (requestsInvalid (final_world (NewGrpcProxy provider w)) !! "grpc") /\
  (forall label,
     counter_value (requestsForwarded (final_world (NewGrpcProxy provider w))) label
       = counter_value (requestsForwarded w) label /\
     counter_value (requestsInvalid (final_world (NewGrpcProxy provider w))) label
       = counter_value (requestsInvalid w) label) /\
  (forall label, label <> "grpc" ->
     requestsForwarded (final_world (NewGrpcProxy provider w)) !! label
       = requestsForwarded w !! label /\
     requestsInvalid (final_world (NewGrpcProxy provider w)) !! label
       = requestsInvalid w !! label) /\
  logged (final_world (NewGrpcProxy provider w)) = logged w /\
  trace (final_world (NewGrpcProxy provider w)) = trace w /\
  external (final_world (NewGrpcProxy provider w)) = external w /\
  final_world (NewGrpcProxy provider (final_world (NewRestProxy handler w)))
    = final_world (NewRestProxy handler (final_world (NewGrpcProxy provider w))).
Proof.
  unfold NewGrpcProxy, NewRestProxy, requestsForwarded_Add, requestsInvalid_Add,
    bind, ret.
  cbn [result final_world requestsForwarded requestsInvalid logged trace external].
  split; [done|].
  split; [unfold counter_Add; rewrite lookup_insert_eq; eauto|].
  split; [unfold counter_Add; rewrite lookup_insert_eq; eauto|].
  split; [intros label; by rewrite !counter_value_Add_zero|].
  split.
  { intros label Hne. unfold counter_Add. by rewrite !lookup_insert_ne. }
  repeat (split; [done|]).
  by rewrite !(counter_Add_zero_commute "grpc" "rest").
Qed.

(** *** The REST proxy as a whole *)

(** What [Serve] adds to the trace on a proxy made by [NewRestProxy]:
    nothing, or one forward. *)
Lemma Serve_trace (handler : Handler E) (rw : ResponseWriter) (req : Request)
    (w : World E) :
  trace (final_world
           (Serve transport {| RestProxy_RestProxy := {| Director := director handler |} |}
              rw req w)) = trace w \/
  exists whole name grp version outreq,
    FindStringSubmatch (req_URL req) = Some [whole; name; grp; version] /\
    version <> EmptyString /\
    trace (final_world
             (Serve transport
                {| RestProxy_RestProxy := {| Director := director handler |} |}
                rw req w)) =
      trace w ++ [ReverseProxyServed req; HandlerCalled req name version; RoundTrip outreq].
Proof.
  destruct (FindStringSubmatch (req_URL req)) as [m|] eqn:Hfind.
  - destruct (FindStringSubmatch_shape _ _ Hfind)
      as (whole & name & grp & version & -> & _).
    destruct version as [|c version].
    + left. by rewrite (Serve_without_version transport _ _ _ _ _ _ _ Hfind).
    + right.
      destruct (handler req name (String c version) (external w))
        as [[err outreq] x] eqn:Hh.
      destruct (transport outreq rw x) as [rw' x'] eqn:Ht.
      exists whole, name, grp, (String c version), outreq.
      split; [done|]. split; [done|].
      by rewrite (Serve_forward_run transport _ _ _ _ _ _ _ _ _ _ _ _ _
                    Hfind ltac:(done) Hh Ht).
  - left. by rewrite (Serve_unmatched transport _ _ _ _ Hfind).
Qed.

(** X8: through [Serve], the routing handler is only ever called with
    a key read from the request's own URL: a non-empty name that folds
    to a word over [[a-z0-9]] and a non-empty version over [[0-9]],
    standing in the URL behind [/v1/models/] and [/versions/] (up to
    letter case).  It is never called with an empty version. *)
Theorem handler_only_gets_keys_of_the_URL (handler : Handler E) (p : RestProxy E)
    (w0 w0' : World E) (rw : ResponseWriter) (req : Request) (w : World E)
    (new : list Event) (e : Event) (name version : string) :
  NewRestProxy handler w0 = Returned p w0' ->
  trace (final_world (Serve transport p rw req w)) = trace w ++ new ->
  In e new ->
  handler_key e = Some (name, version) ->
  name <> EmptyString /\
  string_forallb is_lower_alnum (fold_case name) = true /\
  version <> EmptyString /\
  string_forallb is_digit version = true /\
  exists pre mid rest,
    req_URL req = pre +:+ name +:+ mid +:+ version +:+ rest /\
    fold_case pre = "/v1/models/" /\ fold_case mid = "/versions/".
Proof.
  intros Hnew Htrace Hin Hkey. apply NewRestProxy_proxy in Hnew. subst p.
  destruct (Serve_trace handler rw req w)
    as [Hsame | (whole & n & grp & v & outreq & Hfind & Hv & Hrun)].
  - rewrite Hsame in Htrace. rewrite <- (app_nil_r (trace w)) in Htrace at 1.
    apply app_inv_head in Htrace. subst new. destruct Hin.
  - rewrite Hrun in Htrace. apply app_inv_head in Htrace. subst new.
    destruct Hin as [<-|[<-|[<-|[]]]]; [done| |done].
    cbn in Hkey. injection Hkey as -> ->.
    destruct (versioned_match_key _ _ _ _ _ Hfind Hv) as (Hname & Hall & Hvall & Hurl).
    done.
Qed.

(** X9: on a proxy made by [NewRestProxy], every REST request that gets
    an answer adds exactly one to [invalid_total{rest}], the forwarded
    ones included: a request without version adds nothing to
    [forwards_total{rest}], a request with a version adds one to both
    counters.  The [grpc] series are not touched. *)
Theorem every_answered_REST_request_counts_invalid (handler : Handler E)
    (p : RestProxy E) (w0 w0' : World E) (rw rw' : ResponseWriter) (req : Request)
    (w : World E) :
  NewRestProxy handler w0 = Returned p w0' ->
  result (Serve transport p rw req w) = Some rw' ->
  counter_value (requestsInvalid (final_world (Serve transport p rw req w))) "rest"
    = counter_value (requestsInvalid w) "rest" + 1 /\
  counter_value (requestsInvalid (final_world (Serve transport p rw req w))) "grpc"
    = counter_value (requestsInvalid w) "grpc" /\
  counter_value (requestsForwarded (final_world (Serve transport p rw req w))) "grpc"
    = counter_value (requestsForwarded w) "grpc" /\
  ((matches_without_version (req_URL req) /\
    counter_value (requestsForwarded (final_world (Serve transport p rw req w))) "rest"
      = counter_value (requestsForwarded w) "rest") \/
   (matches_with_version (req_URL req) /\
    counter_value (requestsForwarded (final_world (Serve transport p rw req w))) "rest"
      = counter_value (requestsForwarded w) "rest" + 1)).
Proof.
  intros Hnew Hres. apply NewRestProxy_proxy in Hnew. subst p.
  destruct (FindStringSubmatch (req_URL req)) as [m|] eqn:Hfind.
  - destruct (FindStringSubmatch_shape _ _ Hfind)
      as (whole & name & grp & version & -> & _).
    destruct version as [|c version].
    + rewrite (Serve_without_version transport _ _ _ _ _ _ _ Hfind).
      cbn [final_world requestsInvalid requestsForwarded].
      rewrite counter_value_Add, counter_value_Add_ne by done.
      repeat (split; [done|]). left. split; [|done].
      unfold matches_without_version, version_group. by rewrite Hfind.
    + destruct (handler req name (String c version) (external w))
        as [[err outreq] x] eqn:Hh.
      destruct (transport outreq rw x) as [rw'' x'] eqn:Ht.
      rewrite (Serve_forward_run transport _ _ _ _ _ _ _ _ _ _ _ _ _
                 Hfind ltac:(done) Hh Ht).
      cbn [final_world requestsInvalid requestsForwarded].
      rewrite !counter_value_Add, !counter_value_Add_ne by done.
      repeat (split; [done|]). right. split; [|done].
      exists (String c version). unfold version_group. by rewrite Hfind.
  - by rewrite (Serve_unmatched transport _ _ _ _ Hfind) in Hres.
Qed.

(** X12: the two protocols route under the same key.  For a model spec
    with a name of ASCII letters and digits and a version that is not
    negative, the REST request for [/v1/models/NAME/versions/VERSION],
    VERSION the numeral [clientForSpec] derives, reaches the routing
    handler with exactly the name and version string that the gRPC
    methods hand to the client provider for that spec. *)
Theorem REST_and_gRPC_route_under_the_same_key (handler : Handler E) (p : RestProxy E)
    (w0 w0' : World E) (rw : ResponseWriter) (req : Request) (w : World E)
    (spec : ModelSpec) (suffix : string) :
  NewRestProxy handler w0 = Returned p w0' ->
  Name spec <> EmptyString ->
  string_forallb is_alnum (Name spec) = true ->
  (0 <= GetValue (Version spec) <= int64_max)%Z ->
  head_is is_digit suffix = false ->
  req_URL req =
    "/v1/models/" +:+ Name spec +:+ "/versions/" +:+ version_of (Some spec) +:+ suffix ->
  exists outreq,
    trace (final_world (Serve transport p rw req w)) =
      trace w ++
      [ReverseProxyServed req;
       HandlerCalled req (GetName (Some spec)) (version_of (Some spec));
       RoundTrip outreq].
Proof.
  intros Hnew Hname Hall Hrange Hsuffix Hurl.
  apply NewRestProxy_proxy in Hnew. subst p.
  destruct (FormatInt_nonneg_digits _ (proj1 Hrange)) as [Hne Hdigits].
  pose proof (match_built_URL _ _ _ Hname Hall Hne Hdigits Hsuffix) as Hfind.
  unfold version_of, GetVersion in Hurl. rewrite <- Hurl in Hfind.
  destruct (handler req (Name spec) (FormatInt (GetValue (Version spec))) (external w))
    as [[err outreq] x] eqn:Hh.
  destruct (transport outreq rw x) as [rw' x'] eqn:Ht.
  rewrite (Serve_forward_run transport _ _ _ _ _ _ _ _ _ _ _ _ _ Hfind Hne Hh Ht).
  cbn. eauto.
Qed.

(** *** The gRPC methods as a whole *)

(** Every forwarding method starts by calling the provider. *)
Lemma invoke_calls_provider_first (m : Method) (server : proxyServiceServer E)
    (ctx : Context) (req : option (Req m)) (w : World E) :
  exists rest,
    trace (final_world (invoke_ m server ctx req w)) =
      trace w ++
      ClientProviderCalled (GetName (model_spec m req)) (version_of (model_spec m req))
        :: rest.
Proof.
  destruct (clientProvider server (GetName (model_spec m req))
              (version_of (model_spec m req)) (external w))
    as [[client [err|]] x] eqn:Hp.
  - rewrite (invoke_provider_error _ _ _ _ _ _ _ _ _ _ _ _ _ Hp). cbn. eauto.
  - destruct (service_ m client ctx req x) as [res x'] eqn:Hs.
    rewrite (invoke_forwarded _ _ _ _ _ _ _ _ _ _ _ _ _ _ Hp Hs). cbn. eauto.
Qed.

(** X10: a call of a forwarding method whose provider returns an error
    or a connection (one that is not nil) returns and is counted exactly
    once: the sum of [forwards_total{grpc}] and [invalid_total{grpc}]
    grows by one and the [rest] series stay as they were.  The provider
    is called once; the upstream is called only when the provider
    returned no error, once, after the provider, and with the very
    connection the provider returned. *)
Theorem every_gRPC_call_is_counted_once (m : Method) (server : proxyServiceServer E)
    (ctx : Context) (req : option (Req m)) (w : World E) :
  fst (clientProvider server (GetName (model_spec m req))
         (version_of (model_spec m req)) (external w)) <> (None, None) ->
  is_Some (result (invoke_ m server ctx req w)) /\
  counter_value (requestsForwarded (final_world (invoke_ m server ctx req w))) "grpc"
  + counter_value (requestsInvalid (final_world (invoke_ m server ctx req w))) "grpc"
    = counter_value (requestsForwarded w) "grpc"
      + counter_value (requestsInvalid w) "grpc" + 1 /\
  counter_value (requestsForwarded (final_world (invoke_ m server ctx req w))) "rest"
    = counter_value (requestsForwarded w) "rest" /\
  counter_value (requestsInvalid (final_world (invoke_ m server ctx req w))) "rest"
    = counter_value (requestsInvalid w) "rest" /\
  ((exists err,
      snd (fst (clientProvider server (GetName (model_spec m req))
                  (version_of (model_spec m req)) (external w))) = Some err /\
      trace (final_world (invoke_ m server ctx req w)) =
        trace w ++
        [ClientProviderCalled (GetName (model_spec m req))
           (version_of (model_spec m req))]) \/
   (exists conn,
      fst (clientProvider server (GetName (model_spec m req))
             (version_of (model_spec m req)) (external w)) = (Some conn, None) /\
      trace (final_world (invoke_ m server ctx req w)) =
        trace w ++
        [ClientProviderCalled (GetName (model_spec m req))
           (version_of (model_spec m req));
         UpstreamCalled m (Some conn)])).
Proof.
  destruct (clientProvider server (GetName (model_spec m req))
              (version_of (model_spec m req)) (external w))
    as [[client [err|]] x] eqn:Hp; intros Hnil.
  - rewrite (invoke_provider_error _ _ _ _ _ _ _ _ _ _ _ _ _ Hp).
    cbn [result final_world requestsForwarded requestsInvalid trace fst snd].
    rewrite counter_value_Add, counter_value_Add_ne by done.
    split; [eauto|]. split; [lia|]. repeat (split; [done|]). left. eauto.
  - destruct client as [conn|]; [|done].
    destruct (service_ m (Some conn) ctx req x) as [res x'] eqn:Hs.
    rewrite (invoke_forwarded _ _ _ _ _ _ _ _ _ _ _ _ _ _ Hp Hs).
    cbn [result final_world requestsForwarded requestsInvalid trace fst snd].
    rewrite counter_value_Add, counter_value_Add_ne by done.
    split; [eauto|]. split; [lia|]. repeat (split; [done|]). right. eauto.
Qed.

(** X11: a nil request, or a request without a model spec, is not
    rejected: the provider is asked for the model with the empty name
    and version "0". *)
Theorem missing_model_spec_asks_for_empty_name_version_zero (m : Method)
    (server : proxyServiceServer E) (ctx : Context) (req : option (Req m)) (w : World E) :
  req = None \/ model_spec m req = None ->
  exists rest,
    trace (final_world (invoke_ m server ctx req w)) =
      trace w ++ ClientProviderCalled EmptyString "0" :: rest.
Proof.
  intros H.
  assert (model_spec m req = None) as Hspec.
  { destruct H as [->|H]; [by destruct m|done]. }
  destruct (invoke_calls_provider_first m server ctx req w) as [rest Hrest].
  rewrite Hspec in Hrest. eauto.
Qed.

(** X13: the version check lives in [Serve] alone.  A request handed
    straight to the reverse proxy of a [RestProxy] (the field is
    exported) reaches the routing handler even without a version, which
    is then the empty string; and on a URL that does not match, the
    director panics before the handler is called or anything is sent. *)
Theorem reverse_proxy_alone_does_not_check_the_version (handler : Handler E)
    (rw : ResponseWriter) (req : Request) (w : World E) :
  (matches_without_version (req_URL req) ->
   exists name outreq,
     name <> EmptyString /\
     trace (final_world
              (ReverseProxy_ServeHTTP transport {| Director := director handler |}
                 rw req w)) =
       trace w ++
       [ReverseProxyServed req; HandlerCalled req name EmptyString; RoundTrip outreq]) /\
  (version_group (req_URL req) = None ->
   result (ReverseProxy_ServeHTTP transport {| Director := director handler |} rw req w)
     = None /\
   trace (final_world
            (ReverseProxy_ServeHTTP transport {| Director := director handler |}
               rw req w)) = trace w ++ [ReverseProxyServed req]).
Proof.
  split.
  - intros Hm.
    destruct (version_group_Some _ _ Hm) as (whole & name & grp & Hfind & Hname).
    destruct (handler req name EmptyString (external w)) as [[err outreq] x] eqn:Hh.
    exists name, outreq. split; [done|].
    unfold ReverseProxy_ServeHTTP. cbn [Director].
    unfold bind at 1. unfold emit at 1. unfold bind at 1.
    erewrite director_run; [|exact Hfind|cbn; exact Hh].
    unfold round_trip, bind, emit, call. cbn.
    destruct (transport outreq rw x). cbn. by rewrite <- !app_assoc.
  - intros Hnone. unfold version_group in Hnone.
    destruct (FindStringSubmatch (req_URL req)) as [m|] eqn:Hfind.
    + destruct (FindStringSubmatch_shape _ _ Hfind) as (? & ? & ? & ? & -> & _).
      done.
    + unfold ReverseProxy_ServeHTTP, director. cbn [Director]. by rewrite Hfind.
Qed.

End ProxyMore.

(** * The further properties on the concrete deployment *)

(** X2 on a URL in mixed case. *)
Lemma FindStringSubmatch_parts_witness :
  FindStringSubmatch "/V1/Models/ResNet/VERSIONS/12:predict" =
    Some ["/V1/Models/ResNet/VERSIONS/12"; "ResNet"; "/VERSIONS/12"; "12"] /\
  exists lit rest,
    "/V1/Models/ResNet/VERSIONS/12:predict" = "/V1/Models/ResNet/VERSIONS/12" +:+ rest /\
    "/V1/Models/ResNet/VERSIONS/12" = lit +:+ "ResNet" +:+ "/VERSIONS/12" /\
    fold_case lit = "/v1/models/" /\
    "ResNet" <> EmptyString /\
    string_forallb is_lower_alnum (fold_case "ResNet") = true /\
    string_forallb is_digit "12" = true /\
    head_is is_lower_alnum (fold_case ("/VERSIONS/12" +:+ rest)) = false /\
    (("/VERSIONS/12" = EmptyString /\ "12" = EmptyString) \/
     ("12" <> EmptyString /\ head_is is_digit rest = false /\
      exists lit2, "/VERSIONS/12" = lit2 +:+ "12" /\ fold_case lit2 = "/versions/")).
Proof.
  split; [reflexivity|].
  exact (FindStringSubmatch_parts "/V1/Models/ResNet/VERSIONS/12:predict"
           "/V1/Models/ResNet/VERSIONS/12" "ResNet" "/VERSIONS/12" "12" eq_refl).
Defined.

(** X3 on a name in mixed case. *)
Lemma FindStringSubmatch_of_built_URL_witness :
  "ResNet50" <> EmptyString /\
  string_forallb is_alnum "ResNet50" = true /\
  "12" <> EmptyString /\
  string_forallb is_digit "12" = true /\
  head_is is_digit ":predict" = false /\
  FindStringSubmatch ("/v1/models/" +:+ "ResNet50" +:+ "/versions/" +:+ "12" +:+ ":predict")
    = Some ["/v1/models/" +:+ "ResNet50" +:+ "/versions/" +:+ "12";
            "ResNet50"; "/versions/" +:+ "12"; "12"] /\
  matches_with_version
    ("/v1/models/" +:+ "ResNet50" +:+ "/versions/" +:+ "12" +:+ ":predict").
Proof.
  assert ("ResNet50" <> EmptyString) as Hname by discriminate.
  assert ("12" <> EmptyString) as Hver by discriminate.
  split; [exact Hname|]. split; [reflexivity|]. split; [exact Hver|].
  split; [reflexivity|]. split; [reflexivity|].
  exact (FindStringSubmatch_of_built_URL "ResNet50" "12" ":predict"
           Hname eq_refl Hver eq_refl eq_refl).
Defined.

(** X4 on the versions 42 and 42. *)
Lemma FormatInt_injective_witness :
  (int64_min <= 42 <= int64_max)%Z /\ FormatInt 42 = FormatInt 42 /\ 42%Z = 42%Z.
Proof.
  assert (int64_min <= 42 <= int64_max)%Z as Hrange.
  { unfold int64_min, int64_max. lia. }
  split; [exact Hrange|]. split; [reflexivity|].
  exact (FormatInt_injective 42 42 Hrange Hrange eq_refl).
Defined.

(** X5 on the versions 42 and -7. *)
Lemma FormatInt_shape_witness :
  ((int64_min <= 42 <= int64_max)%Z /\ (0 <= 42)%Z /\
   FormatInt 42 <> EmptyString /\
   string_forallb is_digit (FormatInt 42) = true /\
   (head_is (Ascii.eqb "0") (FormatInt 42) = true -> 42%Z = 0%Z)) /\
  ((int64_min <= -7 <= int64_max)%Z /\ (-7 < 0)%Z /\
   head_is (Ascii.eqb "-") (FormatInt (-7)) = true /\
   head_is is_digit (FormatInt (-7)) = false).
Proof.
  assert (int64_min <= 42 <= int64_max)%Z as Hpos.
  { unfold int64_min, int64_max. lia. }
  assert (int64_min <= -7 <= int64_max)%Z as Hneg.
  { unfold int64_min, int64_max. lia. }
  assert (0 <= 42)%Z as H42 by lia.
  assert (-7 < 0)%Z as H7 by lia.
  split.
  - split; [exact Hpos|]. split; [exact H42|].
    exact (proj1 (FormatInt_shape 42 Hpos) H42).
  - split; [exact Hneg|]. split; [exact H7|].
    exact (proj2 (FormatInt_shape (-7) Hneg) H7).
Defined.

(** X8 on a forwarded request. *)
Lemma handler_only_gets_keys_of_the_URL_witness :
  NewRestProxy demo_handler demo_world =
    Returned demo_proxy (final_world (NewRestProxy demo_handler demo_world)) /\
  trace (final_world
           (Serve demo_transport demo_proxy fresh_response
              (demo_request "/v1/models/ResNet/versions/12:predict") demo_world)) =
    trace demo_world ++
    [ReverseProxyServed (demo_request "/v1/models/ResNet/versions/12:predict");
     HandlerCalled (demo_request "/v1/models/ResNet/versions/12:predict") "ResNet" "12";
     RoundTrip (demo_request "/v1/models/ResNet/versions/12:predict")] /\
  "ResNet" <> EmptyString /\
  string_forallb is_lower_alnum (fold_case "ResNet") = true /\
  "12" <> EmptyString /\
  string_forallb is_digit "12" = true /\
  exists pre mid rest,
    "/v1/models/ResNet/versions/12:predict" = pre +:+ "ResNet" +:+ mid +:+ "12" +:+ rest /\
    fold_case pre = "/v1/models/" /\ fold_case mid = "/versions/".
Proof.
  split; [reflexivity|]. split; [reflexivity|].
  exact (handler_only_gets_keys_of_the_URL demo_transport demo_handler demo_proxy
           demo_world _ fresh_response
           (demo_request "/v1/models/ResNet/versions/12:predict") demo_world
           [ReverseProxyServed (demo_request "/v1/models/ResNet/versions/12:predict");
            HandlerCalled (demo_request "/v1/models/ResNet/versions/12:predict")
              "ResNet" "12";
            RoundTrip (demo_request "/v1/models/ResNet/versions/12:predict")]
           (HandlerCalled (demo_request "/v1/models/ResNet/versions/12:predict")
              "ResNet" "12")
           "ResNet" "12" eq_refl eq_refl (or_intror (or_introl eq_refl)) eq_refl).
Defined.

(** X9 on a forwarded request. *)
Lemma every_answered_REST_request_counts_invalid_witness :
  NewRestProxy demo_handler demo_world =
    Returned demo_proxy (final_world (NewRestProxy demo_handler demo_world)) /\
  result (Serve demo_transport demo_proxy fresh_response
            (demo_request "/v1/models/resnet/versions/1:predict") demo_world)
    = Some (Write "{}" fresh_response) /\
  counter_value
    (requestsInvalid
       (final_world (Serve demo_transport demo_proxy fresh_response
                       (demo_request "/v1/models/resnet/versions/1:predict")
                       demo_world))) "rest" = 1 /\
  counter_value
    (requestsForwarded
       (final_world (Serve demo_transport demo_proxy fresh_response
                       (demo_request "/v1/models/resnet/versions/1:predict")
                       demo_world))) "rest" = 1.
Proof.
  split; [reflexivity|]. split; [reflexivity|].
  pose proof (every_answered_REST_request_counts_invalid demo_transport demo_handler
                demo_proxy demo_world _ fresh_response (Write "{}" fresh_response)
                (demo_request "/v1/models/resnet/versions/1:predict") demo_world
                eq_refl eq_refl) as (Hinv & _ & _ & _).
  split; [exact Hinv | reflexivity].
Defined.

(** X11 on a nil [Predict] request. *)
Lemma missing_model_spec_asks_for_empty_name_version_zero_witness :
  (@None PredictRequest = None \/ model_spec MPredict None = None) /\
  exists rest,
    trace (final_world (demo_invoke MPredict demo_server demo_context None demo_world)) =
      trace demo_world ++ ClientProviderCalled EmptyString "0" :: rest.
Proof.
  split; [left; reflexivity|].
  exact (missing_model_spec_asks_for_empty_name_version_zero demo_Predict demo_Classify
           demo_Regress demo_GetModelMetadata demo_SessionRun MPredict demo_server
           demo_context None demo_world (or_introl eq_refl)).
Defined.

(** X12 on the model [resnet], version 42. *)
Lemma REST_and_gRPC_route_under_the_same_key_witness :
  NewRestProxy demo_handler demo_world =
    Returned demo_proxy (final_world (NewRestProxy demo_handler demo_world)) /\
  Name demo_spec <> EmptyString /\
  string_forallb is_alnum (Name demo_spec) = true /\
  (0 <= GetValue (Version demo_spec) <= int64_max)%Z /\
  head_is is_digit ":predict" = false /\
  exists outreq,
    trace (final_world
             (Serve demo_transport demo_proxy fresh_response
                (demo_request "/v1/models/resnet/versions/42:predict") demo_world)) =
      trace demo_world ++
      [ReverseProxyServed (demo_request "/v1/models/resnet/versions/42:predict");
       HandlerCalled (demo_request "/v1/models/resnet/versions/42:predict")
         "resnet" "42";
       RoundTrip outreq].
Proof.
  assert (Name demo_spec <> EmptyString) as Hname by discriminate.
  assert (0 <= GetValue (Version demo_spec) <= int64_max)%Z as Hrange.
  { unfold int64_max. cbn. lia. }
  split; [reflexivity|]. split; [exact Hname|]. split; [reflexivity|].
  split; [exact Hrange|]. split; [reflexivity|].
  exact (REST_and_gRPC_route_under_the_same_key demo_transport demo_handler demo_proxy
           demo_world _ fresh_response
           (demo_request "/v1/models/resnet/versions/42:predict") demo_world
           demo_spec ":predict" eq_refl Hname eq_refl Hrange eq_refl eq_refl).
Defined.

(** X13 on [/v1/models/resnet:predict] and on [/healthz]. *)
Lemma reverse_proxy_alone_does_not_check_the_version_witness :
  (matches_without_version "/v1/models/resnet:predict" /\
   exists name outreq,
     name <> EmptyString /\
     trace (final_world
              (ReverseProxy_ServeHTTP demo_transport {| Director := director demo_handler |}
                 fresh_response (demo_request "/v1/models/resnet:predict") demo_world)) =
       trace demo_world ++
       [ReverseProxyServed (demo_request "/v1/models/resnet:predict");
        HandlerCalled (demo_request "/v1/models/resnet:predict") name EmptyString;
        RoundTrip outreq]) /\
  (version_group "/healthz" = None /\
   result (ReverseProxy_ServeHTTP demo_transport {| Director := director demo_handler |}
             fresh_response (demo_request "/healthz") demo_world) = None /\
   trace (final_world
            (ReverseProxy_ServeHTTP demo_transport {| Director := director demo_handler |}
               fresh_response (demo_request "/healthz") demo_world)) =
     trace demo_world ++ [ReverseProxyServed (demo_request "/healthz")]).
Proof.
  split.
  - split; [reflexivity|].
    exact (proj1 (reverse_proxy_alone_does_not_check_the_version demo_transport
                    demo_handler fresh_response
                    (demo_request "/v1/models/resnet:predict") demo_world) eq_refl).
  - split; [reflexivity|].
    exact (proj2 (reverse_proxy_alone_does_not_check_the_version demo_transport
                    demo_handler fresh_response (demo_request "/healthz") demo_world)
             eq_refl).
Defined.

(** * Listening and closing *)

Section ListenFacts.

Context {E : Type}.
Variable net_Listen : string -> string -> E -> (Listener + error) * E.
Variable grpc_Serve : grpc_Server -> Listener -> E -> option (option error * E).
Variable Listener_Close : Listener -> E -> option error * E.
Variable grpc_GracefulStop : grpc_Server -> E -> E.

Local Abbreviation Listen_ := (Listen net_Listen grpc_Serve).
Local Abbreviation Close_ := (Close Listener_Close grpc_GracefulStop).

Lemma Listen_failed (proxy : GrpcProxy E) (port : Z) (w : World E) err x :
  net_Listen "tcp" (listen_address port) (external w) = (inr err, x) ->
  Listen_ proxy port w =
    ListenReturned (Some err)
      {| GrpcProxy_GrpcProxy := Some grpc_NewServer;
         serverImpl := serverImpl proxy;
         listener := listener proxy |}
      (set_external x (record_event (NetListenCalled "tcp" (listen_address port)) w)).
Proof.
  intros H. unfold Listen. cbn [external record_event].
  fold (listen_address port). by rewrite H.
Qed.

Lemma Listen_serving (proxy : GrpcProxy E) (port : Z) (w : World E) lis x :
  net_Listen "tcp" (listen_address port) (external w) = (inl lis, x) ->
  Listen_ proxy port w =
    match grpc_Serve listening_server lis x with
    | Some (_, x') =>
        ListenReturned None
          {| GrpcProxy_GrpcProxy := Some listening_server;
             serverImpl := serverImpl proxy;
             listener := Some lis |}
          (set_external x'
             (record_event (ServeCalled listening_server lis)
                (set_external x
                   (record_event (NetListenCalled "tcp" (listen_address port)) w))))
    | None =>
        ListenBlocked
          {| GrpcProxy_GrpcProxy := Some listening_server;
             serverImpl := serverImpl proxy;
             listener := Some lis |}
          (record_event (ServeCalled listening_server lis)
             (set_external x
                (record_event (NetListenCalled "tcp" (listen_address port)) w)))
    end.
Proof.
  intros H. unfold Listen. cbn [external record_event].
  fold (listen_address port). rewrite H. cbn [external set_external record_event].
  fold listening_server. by destruct (grpc_Serve listening_server lis x) as [[? ?]|].
Qed.


End ListenFacts.

(** C5 as the specification states it fails: the error [MultiInference]
    returns is not an [Unimplemented] status; its code is [Unknown]. *)
Lemma MultiInference_error_is_not_Unimplemented :
  exists err,
    result (MultiInference demo_server demo_context None demo_world)
      = Some (None, Some err) /\
    status_Code (Some err) = codes_Unknown /\
    status_Code (Some err) <> codes_Unimplemented.
Proof.
  exists (errors_New "MultiInference not supported").
  split; [reflexivity|]. split; [reflexivity|discriminate].
Qed.


(** X10 on a [Predict] whose provider yields a connection. *)
Lemma every_gRPC_call_is_counted_once_witness :
  fst (clientProvider demo_server "resnet" "42" tt) <> (None, None) /\
  is_Some (result (demo_invoke MPredict demo_server demo_context demo_PredictRequest
                     demo_world)) /\
  counter_value
    (requestsForwarded
       (final_world (demo_invoke MPredict demo_server demo_context demo_PredictRequest
                       demo_world))) "grpc"
  + counter_value
      (requestsInvalid
         (final_world (demo_invoke MPredict demo_server demo_context demo_PredictRequest
                         demo_world))) "grpc" = 1.
Proof.
  assert (fst (clientProvider demo_server "resnet" "42" tt) <> (None, None)) as Hnil
    by discriminate.
  split; [exact Hnil|].
  pose proof (every_gRPC_call_is_counted_once demo_Predict demo_Classify demo_Regress
                demo_GetModelMetadata demo_SessionRun MPredict demo_server demo_context
                demo_PredictRequest demo_world Hnil) as (Hret & Hsum & _).
  split; [exact Hret | exact Hsum].
Defined.
